(** * init: template materializer and MCP stdio server (main.go)

    A shallow embedding of [writeFiles], the JSON-RPC handlers and the
    transport loop of [runMCPServer], over a model of the part of the
    operating system and of the Go standard library they call. *)

From Stdlib Require Import ZArith Ascii List Lia.
From stdpp Require Import base option list strings gmap.

Local Open Scope Z_scope.

(** The last byte of a string. *)
Fixpoint string_last (s : string) : option ascii :=
  match s with
  | EmptyString => None
  | String c EmptyString => Some c
  | String _ rest => string_last rest
  end.

(** ** path/filepath (Unix) *)

Module filepath.

Definition Separator : ascii := "/"%char.

(** [strings.Split(s, "/")]. *)
Fixpoint split (s : string) : list string :=
  match s with
  | EmptyString => [EmptyString]
  | String c s' =>
      if decide (c = Separator) then EmptyString :: split s'
      else match split s' with
           | h :: t => String c h :: t
           | [] => [String c EmptyString]
           end
  end.

(** [strings.Join(elems, "/")]. *)
Fixpoint join_sep (elems : list string) : string :=
  match elems with
  | [] => ""
  | [e] => e
  | e :: rest => e +:+ "/" +:+ join_sep rest
  end.

Definition IsAbs (path : string) : bool :=
  match path with
  | String c _ => bool_decide (c = Separator)
  | EmptyString => false
  end.

(** One path element seen by [Clean]; [stack] holds the elements kept so
    far, the last one first. Empty elements and "." are dropped, ".."
    removes the element before it, is dropped at the root, and is kept at
    the start of a relative path. *)
Definition clean_step (rooted : bool) (stack : list string) (elem : string)
  : list string :=
  if decide (elem = "" ∨ elem = ".") then stack
  else if decide (elem = "..") then
    match stack with
    | top :: below => if decide (top = "..") then elem :: stack else below
    | [] => if rooted then [] else [elem]
    end
  else elem :: stack.

(** The cleaned path made of the elements kept: a rooted path starts with
    the separator, and an empty relative path is written ".". *)
Definition render (rooted : bool) (elems : list string) : string :=
  if rooted then "/" +:+ join_sep elems
  else match elems with
       | [] => "."
       | _ => join_sep elems
       end.

(** [filepath.Clean]: the shortest path naming the same place by lexical
    processing alone. *)
Definition Clean (path : string) : string :=
  let rooted := IsAbs path in
  render rooted (rev (fold_left (clean_step rooted) (split path) [])).

(** [filepath.Join(dir, name)]: empty elements are ignored, the rest is
    joined by the separator and cleaned. *)
Definition Join (dir name : string) : string :=
  if decide (dir = "") then
    if decide (name = "") then "" else Clean name
  else Clean (dir +:+ "/" +:+ name).

(** [path[:i+1]] for [i] the index of the last separator of [path]. *)
Fixpoint upto_last_sep (path : string) : string :=
  match path with
  | EmptyString => ""
  | String c rest =>
      match upto_last_sep rest with
      | EmptyString => if decide (c = Separator) then "/" else ""
      | r => String c r
      end
  end.

(** [filepath.Dir]: all but the last element of [path], cleaned. *)
Definition Dir (path : string) : string := Clean (upto_last_sep path).

(** A file name that is one path element: no separator in it, and none
    of "", "." and "..". *)
Definition plain (name : string) : Prop :=
  split name = [name] ∧ name ≠ "" ∧ name ≠ "." ∧ name ≠ "..".

End filepath.

(** ** The operating system: a file tree, [os.Stat] and [os.WriteFile] *)

Module os.

Inductive Errno := ENOENT | EACCES | ENOTDIR | EISDIR | ELOOP.

Definition Errno_Error (e : Errno) : string :=
  match e with
  | ENOENT => "no such file or directory"
  | EACCES => "permission denied"
  | ENOTDIR => "not a directory"
  | EISDIR => "is a directory"
  | ELOOP => "too many levels of symbolic links"
  end.

(** [*os.PathError]: the error [os.Stat] and [os.WriteFile] return. *)
Record PathError := { Op : string; Path : string; Err : Errno }.

Definition PathError_Error (e : PathError) : string :=
  Op e +:+ " " +:+ Path e +:+ ": " +:+ Errno_Error (Err e).

(** What a name of the file tree holds. A directory records whether the
    process may search it (look names up in it) and write it (create
    names in it); a regular file records the permission bits it was
    created with and its content. *)
Inductive node :=
| Regular (perm : N) (data : list Byte.byte)
| Directory (search write : bool)
| Symlink (target : string).

(** The file tree maps path names to nodes. A name is looked up as it is
    given, and is reached through its parent directory [filepath.Dir name];
    symbolic links are followed in the last position of a name. *)
Abbreviation tree := (gmap string node).

(** [os.FileInfo], of which the program reads [IsDir] only. *)
Record FileInfo := { IsDir : bool }.

(** Searching the parent directory of [name]; the root has none. *)
Definition traverse (t : tree) (name : string) : option Errno :=
  let parent := filepath.Dir name in
  if decide (parent = name) then None
  else match t !! parent with
       | None => Some ENOENT
       | Some (Directory true _) => None
       | Some (Directory false _) => Some EACCES
       | Some _ => Some ENOTDIR
       end.

(** Where a symbolic link found at [name] leads. *)
Definition follow (name target : string) : string :=
  if filepath.IsAbs target then target
  else filepath.Join (filepath.Dir name) target.

(** The kernel gives up after 40 symbolic links. *)
Definition MAXSYMLINKS : nat := 40.

(** Name resolution: the name the links lead to, and the node there, if
    any. *)
Fixpoint walk (fuel : nat) (t : tree) (name : string)
  : Errno + (string * option node) :=
  match traverse t name with
  | Some e => inl e
  | None =>
      match t !! name with
      | Some (Symlink target) =>
          match fuel with
          | O => inl ELOOP
          | S fuel' => walk fuel' t (follow name target)
          end
      | found => inr (name, found)
      end
  end.

Definition errno_of_walk (t : tree) (name : string)
  : Errno + (string * option node) :=
  if decide (name = "") then inl ENOENT else walk MAXSYMLINKS t name.

(** [os.Stat(name)]: follows symbolic links; fails when the name cannot be
    reached or nothing is there. *)
Definition Stat (t : tree) (name : string) : PathError + FileInfo :=
  let failed e := inl {| Op := "stat"; Path := name; Err := e |} in
  match errno_of_walk t name with
  | inl e => failed e
  | inr (_, None) => failed ENOENT
  | inr (_, Some (Regular _ _)) => inr {| IsDir := false |}
  | inr (_, Some (Directory _ _)) => inr {| IsDir := true |}
  | inr (_, Some (Symlink _)) => failed ELOOP
  end.

(** Creating a name needs a parent directory that may be written. *)
Definition may_create (t : tree) (name : string) : option Errno :=
  match t !! filepath.Dir name with
  | None => Some ENOENT
  | Some (Directory _ true) => None
  | Some (Directory _ false) => Some EACCES
  | Some _ => Some ENOTDIR
  end.

(** [os.WriteFile(name, data, perm)]: opens [name] with
    [O_WRONLY|O_CREATE|O_TRUNC], following symbolic links, and writes
    [data]. A missing file is created with [perm]; an existing regular file
    is truncated and keeps its permission bits. *)
Definition WriteFile (t : tree) (name : string) (data : list Byte.byte)
    (perm : N) : tree * option PathError :=
  let failed e := (t, Some {| Op := "open"; Path := name; Err := e |}) in
  match errno_of_walk t name with
  | inl e => failed e
  | inr (final, None) =>
      match may_create t final with
      | Some e => failed e
      | None => (<[final := Regular perm data]> t, None)
      end
  | inr (final, Some (Regular perm0 _)) =>
      (<[final := Regular perm0 data]> t, None)
  | inr (_, Some (Directory _ _)) => failed EISDIR
  | inr (_, Some (Symlink _)) => failed ELOOP
  end.

(** The parent directory of [name] is there, and may be searched and
    written. *)
Definition permits_create (t : tree) (name : string) : Prop :=
  traverse t name = None ∧ may_create t name = None.

(** A free name that can be created. *)
Definition creatable (t : tree) (name : string) : Prop :=
  name ≠ "" ∧ t !! name = None ∧ permits_create t name.

(** The calls the program makes, in order. *)
Inductive syscall :=
| SysStat (name : string)
| SysWriteFile (name : string) (data : list Byte.byte) (perm : N).

End os.

(** ** The types of main.go *)

(** EmbeddedFile pairs embedded content with its destination filename. *)
Record EmbeddedFile := { Content : list Byte.byte; DestName : string }.

(** Result holds the outcome of an init operation. *)
Record Result := { Directory : string; FilesCreated : list string }.

(** The finite float64 values, sign, integral significand and binary
    exponent: what [encoding/json] stores for a JSON number. *)
Record float64 := { negative : bool; significand : N; exponent : Z }.

(** A value of type [any] as [encoding/json] decodes one: nil for null,
    bool, float64 for every number, string, []any and map[string]any. *)
#[warnings="-register-all"]
Inductive any : Type :=
| Nil
| Bool (b : bool)
| Float64 (f : float64)
| String_ (s : string)
| Slice (elems : list any)
| Map (fields : gmap string any).

Abbreviation json_RawMessage := string (only parsing).

Module JSONRPCRequest.
Record t := { JSONRPC : string; ID : any; Method : string; Params : json_RawMessage }.
End JSONRPCRequest.

Module Error.
Record t := { Code : Z; Message : string }.
End Error.

Module ServerInfo.
Record t := { Name : string; Version : string }.
End ServerInfo.

Module Capabilities.
Record t := { Tools : gmap string bool }.
End Capabilities.

Module InitializeResult.
Record t := {
  ProtocolVersion : string;
  ServerInfo : ServerInfo.t;
  Capabilities : Capabilities.t
}.
End InitializeResult.

Module Property.
Record t := { Type_ : string; Description : string }.
End Property.

Module InputSchema.
Record t := {
  Type_ : string;
  Properties : gmap string Property.t;
  Required : list string
}.
End InputSchema.

Module Tool.
Record t := { Name : string; Description : string; InputSchema : InputSchema.t }.
End Tool.

Module ToolsListResult.
Record t := { Tools : list Tool.t }.
End ToolsListResult.

Module ToolCallParams.
Record t := { Name : string; Arguments : gmap string any }.
End ToolCallParams.

Module ContentItem.
Record t := { Type_ : string; Text : string }.
End ContentItem.

Module ToolCallResult.
Record t := { Content : list ContentItem.t }.
End ToolCallResult.

(** The values the handlers pass as [result any] to [sendResponse]. *)
Inductive result_value :=
| OfInitializeResult (r : InitializeResult.t)
| OfToolsListResult (r : ToolsListResult.t)
| OfToolCallResult (r : ToolCallResult.t).

(** [Result any] is nil and [Error *Error] is nil unless set; with
    [omitempty] a nil field is left out of the JSON object. *)
Module JSONRPCResponse.
Record t := {
  JSONRPC : string;
  ID : any;
  Result : option result_value;
  Error : option Error.t
}.
End JSONRPCResponse.

(** The errors [writeFiles] builds with [fmt.Errorf]. *)
Inductive error :=
| CheckingDirectory (err : os.PathError)
| NotADirectory (directory : string)
| AlreadyExists (destPath : string)
| Writing (destName : string) (err : os.PathError).

Definition error_Error (e : error) : string :=
  match e with
  | CheckingDirectory err => "checking directory: " +:+ os.PathError_Error err
  | NotADirectory directory => "not a directory: " +:+ directory
  | AlreadyExists destPath =>
      "file already exists, refusing to overwrite: " +:+ destPath
  | Writing destName err =>
      "writing " +:+ destName +:+ ": " +:+ os.PathError_Error err
  end.

(** ** The world the program runs in *)

(** The file tree, the system calls made so far, and the two output
    streams. A line of standard output is a response printed by
    [sendResponse] or [sendError]; it is kept as the value whose JSON text
    the line is. *)
Record World := {
  files : os.tree;
  calls : list os.syscall;
  stdout : list JSONRPCResponse.t;
  stderr : list string
}.

(** Computations that read and change the world. *)
Definition M (A : Type) : Type := World → A * World.

#[global] Instance M_ret : MRet M := λ A a w, (a, w).
#[global] Instance M_bind : MBind M :=
  λ A B k m w, let '(a, w') := m w in k a w'.

Definition with_call (c : os.syscall) (w : World) : World :=
  {| files := files w; calls := calls w ++ [c];
     stdout := stdout w; stderr := stderr w |}.

Definition with_files (t : os.tree) (w : World) : World :=
  {| files := t; calls := calls w; stdout := stdout w; stderr := stderr w |}.

Definition with_line (resp : JSONRPCResponse.t) (w : World) : World :=
  {| files := files w; calls := calls w;
     stdout := stdout w ++ [resp]; stderr := stderr w |}.

Definition os_Stat (name : string) : M (os.PathError + os.FileInfo) := λ w,
  (os.Stat (files w) name, with_call (os.SysStat name) w).

Definition os_WriteFile (name : string) (data : list Byte.byte) (perm : N)
  : M (option os.PathError) := λ w,
  let '(t, err) := os.WriteFile (files w) name data perm in
  (err, with_files t (with_call (os.SysWriteFile name data perm) w)).

(** [fmt.Println(string(data))] for the JSON text [data] of [resp]. *)
Definition Println (resp : JSONRPCResponse.t) : M unit := λ w,
  (tt, with_line resp w).

(** [fmt.Fprintf(os.Stderr, ...)]. *)
Definition Fprintf_Stderr (msg : string) : M unit := λ w,
  (tt, {| files := files w; calls := calls w;
          stdout := stdout w; stderr := stderr w ++ [msg] |}).

(** [json.Marshal(resp)] of a response. It fails on values JSON cannot
    express (NaN, infinities, channels, functions, cyclic data); a
    [JSONRPCResponse.t] holds none, so every response has a JSON text. *)
Definition json_Marshal (resp : JSONRPCResponse.t)
  : string + JSONRPCResponse.t := inr resp.

(** The octal literal [0644]: owner read and write, group and other read. *)
Definition perm_0644 : N := 6 * 64 + 4 * 8 + 4.

(** What the main loop of [runMCPServer] receives from one [select]. *)
Inductive event :=
| CtxDone                     (* <-ctx.Done() *)
| ScannerError (err : string) (* err := <-errChan *)
| Line (line : string)        (* line, ok := <-lineChan, ok *)
| LineChanClosed.             (* line, ok := <-lineChan, !ok *)

(** ** main.go *)

Section Program.

(** The embedded files [files/FILE1] and [files/FILE2]. *)
Variables file1Content file2Content : list Byte.byte.

(** [encoding/json], as the program calls it: [json.Unmarshal] of a line
    into a [JSONRPCRequest] and of [req.Params] into a [ToolCallParams]
    ([None] when it returns an error), and [json.Marshal] of a [Result]. *)
Variable json_Unmarshal_Request : string → option JSONRPCRequest.t.
Variable json_Unmarshal_Params : json_RawMessage → option ToolCallParams.t.
Variable json_Marshal_Result : Result → option string.

Definition embeddedFiles : list EmbeddedFile :=
  [ {| Content := file1Content; DestName := "LICENSE" |};
    {| Content := file2Content; DestName := "CONTRIBUTING.md" |} ].

(** The body of [for _, ef := range embeddedFiles] in [writeFiles], over
    the entries still to visit; [created] is the slice built so far. *)
Fixpoint writeFiles_range (directory : string) (efs : list EmbeddedFile)
    (created : list string) : M (error + list string) :=
  match efs with
  | [] => mret (inr created)
  | ef :: rest =>
      let destPath := filepath.Join directory (DestName ef) in
      st ← os_Stat destPath;
      match st with
      | inr _ => mret (inl (AlreadyExists destPath))
      | inl _ =>
          werr ← os_WriteFile destPath (Content ef) perm_0644;
          match werr with
          | Some err => mret (inl (Writing (DestName ef) err))
          | None => writeFiles_range directory rest (created ++ [destPath])
          end
      end
  end.

Definition writeFiles (directory : string) : M (error + Result) :=
  st ← os_Stat directory;
  match st with
  | inl err => mret (inl (CheckingDirectory err))
  | inr info =>
      if negb (os.IsDir info) then mret (inl (NotADirectory directory))
      else
        r ← writeFiles_range directory embeddedFiles [];
        match r with
        | inl err => mret (inl err)
        | inr created =>
            mret (inr {| Directory := directory; FilesCreated := created |})
        end
  end.

Definition sendResponse (id : any) (result : result_value) : M unit :=
  let resp := {| JSONRPCResponse.JSONRPC := "2.0";
                 JSONRPCResponse.ID := id;
                 JSONRPCResponse.Result := Some result;
                 JSONRPCResponse.Error := None |} in
  match json_Marshal resp with
  | inl err => Fprintf_Stderr ("Failed to marshal response: " +:+ err)
  | inr data => Println data
  end.

Definition sendError (id : any) (code : Z) (message : string) : M unit :=
  let resp := {| JSONRPCResponse.JSONRPC := "2.0";
                 JSONRPCResponse.ID := id;
                 JSONRPCResponse.Result := None;
                 JSONRPCResponse.Error :=
                   Some {| Error.Code := code; Error.Message := message |} |} in
  match json_Marshal resp with
  | inl err => Fprintf_Stderr ("Failed to marshal error response: " +:+ err)
  | inr data => Println data
  end.

Definition handleInitialize (req : JSONRPCRequest.t) : M unit :=
  let result :=
    {| InitializeResult.ProtocolVersion := "2024-11-05";
       InitializeResult.ServerInfo :=
         {| ServerInfo.Name := "init"; ServerInfo.Version := "1.0.0" |};
       InitializeResult.Capabilities :=
         {| Capabilities.Tools := <["list" := true]> (<["call" := true]> ∅) |}
    |} in
  sendResponse (JSONRPCRequest.ID req) (OfInitializeResult result).

Definition handleToolsList (req : JSONRPCRequest.t) : M unit :=
  let result :=
    {| ToolsListResult.Tools :=
         [ {| Tool.Name := "init";
              Tool.Description :=
                "Write embedded template files to a target directory. Refuses to overwrite existing files.";
              Tool.InputSchema :=
                {| InputSchema.Type_ := "object";
                   InputSchema.Properties :=
                     <["directory" :=
                         {| Property.Type_ := "string";
                            Property.Description :=
                              "Absolute path to the directory where files will be created" |}]> ∅;
                   InputSchema.Required := ["directory"] |} |} ] |} in
  sendResponse (JSONRPCRequest.ID req) (OfToolsListResult result).

(** [params.Arguments["directory"].(string)]. *)
Definition directory_argument (params : ToolCallParams.t) : string * bool :=
  match ToolCallParams.Arguments params !! "directory" with
  | Some (String_ s) => (s, true)
  | _ => ("", false)
  end.

Definition handleToolsCall (req : JSONRPCRequest.t) : M unit :=
  let id := JSONRPCRequest.ID req in
  match json_Unmarshal_Params (JSONRPCRequest.Params req) with
  | None => sendError id (-32602) "Invalid params"
  | Some params =>
      if negb (bool_decide (ToolCallParams.Name params = "init")) then
        sendError id (-32602) "Unknown tool"
      else
        let '(directory, ok) := directory_argument params in
        if negb ok || bool_decide (directory = "") then
          sendError id (-32602) "Missing or invalid 'directory' parameter"
        else
          r ← writeFiles directory;
          match r with
          | inl err => sendError id (-32603) ("Init failed: " +:+ error_Error err)
          | inr result =>
              match json_Marshal_Result result with
              | None => sendError id (-32603) "Failed to marshal result"
              | Some jsonResult =>
                  let response :=
                    {| ToolCallResult.Content :=
                         [ {| ContentItem.Type_ := "text";
                              ContentItem.Text := jsonResult |} ] |} in
                  sendResponse id (OfToolCallResult response)
              end
          end
  end.

Definition handleRequest (req : JSONRPCRequest.t) : M unit :=
  let method := JSONRPCRequest.Method req in
  if bool_decide (method = "initialize") then handleInitialize req
  else if bool_decide (method = "tools/list") then handleToolsList req
  else if bool_decide (method = "tools/call") then handleToolsCall req
  else sendError (JSONRPCRequest.ID req) (-32601) "Method not found".

(** The [for { select { ... } }] loop of [runMCPServer], run on the
    events its [select] receives, in the order it receives them. The two
    goroutines (signal handler, line scanner) are the senders of these
    events; with no event left the loop is waiting in [select]. *)
Fixpoint runMCPServer (events : list event) : M unit :=
  match events with
  | [] => mret tt
  | CtxDone :: _ => mret tt
  | ScannerError err :: _ => Fprintf_Stderr ("Scanner error: " +:+ err)
  | LineChanClosed :: _ => mret tt
  | Line line :: rest =>
      if bool_decide (line = "") then runMCPServer rest
      else
        match json_Unmarshal_Request line with
        | None =>
            _ ← sendError Nil (-32700) "Parse error";
            runMCPServer rest
        | Some req =>
            _ ← handleRequest req;
            runMCPServer rest
        end
  end.

End Program.

(** ** main.go: the command line *)

(** Exit codes for CLI mode. *)
Definition ExitSuccess : Z := 0.
Definition ExitError : Z := 1.

Section CommandLine.

Variables file1Content file2Content : list Byte.byte.
Variable json_Unmarshal_Request : string → option JSONRPCRequest.t.
Variable json_Unmarshal_Params : json_RawMessage → option ToolCallParams.t.
Variable json_Marshal_Result : Result → option string.

(** The text of the error [json.Marshal] returns for a Result, when it
    returns one. *)
Variable json_Marshal_Result_error : Result → string.

(** [runCLI]. In CLI mode standard output carries the JSON text of a
    Result, not responses: the lines printed are returned, with the status
    passed to [os.Exit], if the function calls it ([None]: it returns). *)
Definition runCLI (directory : string) : M (list string * option Z) :=
  if bool_decide (directory = "") then
    _ ← Fprintf_Stderr "Error: --directory is required in CLI mode";
    mret ([], Some ExitError)
  else
    r ← writeFiles file1Content file2Content directory;
    match r with
    | inl err =>
        _ ← Fprintf_Stderr ("Error: " +:+ error_Error err);
        mret ([], Some ExitError)
    | inr result =>
        match json_Marshal_Result result with
        | None =>
            _ ← Fprintf_Stderr ("Error marshaling result: "
                                +:+ json_Marshal_Result_error result);
            mret ([], Some ExitError)
        | Some output => mret ([output], None)
        end
    end.

(** [main], after [flag.Parse] has read the flags [-cli] and [-directory]
    ([false] and [""] when absent): the lines printed in CLI mode and the
    exit status of the process, 0 when [main] returns. *)
Definition main (cliMode : bool) (directory : string) (events : list event)
  : M (list string * Z) :=
  if cliMode then
    '(printed, exit) ← runCLI directory;
    mret (printed, default 0 exit)
  else
    _ ← runMCPServer file1Content file2Content json_Unmarshal_Request
          json_Unmarshal_Params json_Marshal_Result events;
    mret ([], 0).

End CommandLine.

(** ** Vocabulary of the statements *)

(** The destination path of a template entry in [directory]. *)
Definition dest (directory : string) (ef : EmbeddedFile) : string :=
  filepath.Join directory (DestName ef).

(** The tree after [os.WriteFile] of one entry, and of the entries of a
    list in order. *)
Definition write_entry (directory : string) (t : os.tree) (ef : EmbeddedFile)
  : os.tree :=
  (os.WriteFile t (dest directory ef) (Content ef) perm_0644).1.

Definition materialized (directory : string) (efs : list EmbeddedFile)
    (t : os.tree) : os.tree :=
  foldl (write_entry directory) t efs.

(** The response to a line that is not a JSON-RPC request. *)
Definition parse_error_response : JSONRPCResponse.t :=
  {| JSONRPCResponse.JSONRPC := "2.0";
     JSONRPCResponse.ID := Nil;
     JSONRPCResponse.Result := None;
     JSONRPCResponse.Error :=
       Some {| Error.Code := -32700; Error.Message := "Parse error" |} |}.

(** A response with a result and no error, or an error and no result. *)
Definition exactly_one (resp : JSONRPCResponse.t) : Prop :=
  (is_Some (JSONRPCResponse.Result resp) ∧ JSONRPCResponse.Error resp = None)
  ∨ (JSONRPCResponse.Result resp = None ∧ is_Some (JSONRPCResponse.Error resp)).

(** What a handler does to standard output: one more line, a response
    with the id [id] that has a result or an error, not both. *)
Definition emits (id : any) (w w' : World) : Prop :=
  ∃ resp,
    stdout w' = stdout w ++ [resp]
    ∧ JSONRPCResponse.ID resp = id
    ∧ exactly_one resp.

(** The lines the loop takes from [lineChan] before it returns. *)
Fixpoint received (events : list event) : list string :=
  match events with
  | Line line :: rest => line :: received rest
  | _ => []
  end.

(** [resp] answers [line]: it echoes the id of the request the line
    decodes to, or is the parse error when the line does not decode. *)
Definition answers (Unmarshal : string → option JSONRPCRequest.t)
    (line : string) (resp : JSONRPCResponse.t) : Prop :=
  match Unmarshal line with
  | Some req => JSONRPCResponse.ID resp = JSONRPCRequest.ID req
  | None => resp = parse_error_response
  end.

(** What a reader finds at [name]: the content of the regular file the
    name leads to. *)
Definition file_content (t : os.tree) (name : string)
  : option (list Byte.byte) :=
  match os.errno_of_walk t name with
  | inr (_, Some (os.Regular _ data)) => Some data
  | _ => None
  end.

(** The parameters [handleToolsCall] accepts: the tool [init] and a
    non-empty string as [directory]. *)
Definition names_directory (params : ToolCallParams.t) (directory : string)
  : Prop :=
  ToolCallParams.Name params = "init"
  ∧ ToolCallParams.Arguments params !! "directory" = Some (String_ directory)
  ∧ directory ≠ "".

(** The error response with the given id, code and message. *)
Definition error_response (id : any) (code : Z) (message : string)
  : JSONRPCResponse.t :=
  {| JSONRPCResponse.JSONRPC := "2.0";
     JSONRPCResponse.ID := id;
     JSONRPCResponse.Result := None;
     JSONRPCResponse.Error :=
       Some {| Error.Code := code; Error.Message := message |} |}.



(** ** Sample inputs *)

Definition sample_file1 : list Byte.byte :=
  String.list_byte_of_string "MIT License".
Definition sample_file2 : list Byte.byte :=
  String.list_byte_of_string "# Contributing".

(** [/tmp/empty], an empty directory with the given permissions. *)
Definition sample_tree (search write : bool) : os.tree :=
  <["/" := os.Directory true true]>
    (<["/tmp" := os.Directory true true]>
       (<["/tmp/empty" := os.Directory search write]> ∅)).

(** [/tmp/empty] holding [LICENSE] as a symbolic link to a missing file. *)
Definition sample_tree_dangling : os.tree :=
  <["/tmp/empty/LICENSE" := os.Symlink "missing"]> (sample_tree true true).

(** [/tmp/empty] holding [CONTRIBUTING.md] only. *)
Definition sample_tree_contributing : os.tree :=
  <["/tmp/empty/CONTRIBUTING.md" := os.Regular perm_0644 sample_file2]>
    (sample_tree true true).

(** [/tmp/empty] holding [LICENSE] only. *)
Definition sample_tree_license : os.tree :=
  <["/tmp/empty/LICENSE" := os.Regular perm_0644 sample_file1]>
    (sample_tree true true).

Definition world_of (t : os.tree) : World :=
  {| files := t; calls := []; stdout := []; stderr := [] |}.

(** The double quote, and a JSON string literal without escapes. *)
Definition dquote : string := String (ascii_of_nat 34) EmptyString.
Definition quoted (s : string) : string := dquote +:+ s +:+ dquote.

(** The line [{"jsonrpc":"2.0","id":1,"method":"tools/list"}] and the
    request it decodes to. *)
Definition sample_line : string :=
  "{" +:+ quoted "jsonrpc" +:+ ":" +:+ quoted "2.0" +:+ ","
      +:+ quoted "id" +:+ ":1,"
      +:+ quoted "method" +:+ ":" +:+ quoted "tools/list" +:+ "}".

Definition sample_request : JSONRPCRequest.t :=
  {| JSONRPCRequest.JSONRPC := "2.0";
     JSONRPCRequest.ID :=
       Float64 {| negative := false; significand := 1; exponent := 0 |};
     JSONRPCRequest.Method := "tools/list";
     JSONRPCRequest.Params := "" |}.

(** The text [{"name":"init","arguments":{"directory":"/tmp/empty"}}]
    and the parameters it decodes to. *)
Definition sample_params_text : string :=
  "{" +:+ quoted "name" +:+ ":" +:+ quoted "init" +:+ ","
      +:+ quoted "arguments" +:+ ":{"
      +:+ quoted "directory" +:+ ":" +:+ quoted "/tmp/empty" +:+ "}}".

Definition sample_params : ToolCallParams.t :=
  {| ToolCallParams.Name := "init";
     ToolCallParams.Arguments := {[ "directory" := String_ "/tmp/empty" ]} |}.

(** The line
    [{"jsonrpc":"2.0","id":"a","method":"tools/call","params":...}] with
    these parameters, and the request it decodes to. *)
Definition sample_call_line : string :=
  "{" +:+ quoted "jsonrpc" +:+ ":" +:+ quoted "2.0" +:+ ","
      +:+ quoted "id" +:+ ":" +:+ quoted "a" +:+ ","
      +:+ quoted "method" +:+ ":" +:+ quoted "tools/call" +:+ ","
      +:+ quoted "params" +:+ ":" +:+ sample_params_text +:+ "}".

Definition sample_call_request : JSONRPCRequest.t :=
  {| JSONRPCRequest.JSONRPC := "2.0";
     JSONRPCRequest.ID := String_ "a";
     JSONRPCRequest.Method := "tools/call";
     JSONRPCRequest.Params := sample_params_text |}.

(** A decoder that knows the two sample lines and nothing else. *)
Definition sample_Unmarshal_Request (line : string)
  : option JSONRPCRequest.t :=
  if decide (line = sample_line) then Some sample_request
  else if decide (line = sample_call_line) then Some sample_call_request
  else None.

Definition sample_Unmarshal_Params (params : string)
  : option ToolCallParams.t :=
  if decide (params = sample_params_text) then Some sample_params else None.

(** The JSON text of a Result whose paths need no escaping. *)
Definition sample_Marshal_Result (result : Result) : option string :=
  Some ("{" +:+ quoted "directory" +:+ ":" +:+ quoted (Directory result)
        +:+ "," +:+ quoted "files_created" +:+ ":["
        +:+ String.concat "," (quoted <$> FilesCreated result) +:+ "]}").

Definition sample_Marshal_Result_error (result : Result) : string :=
  "json: unsupported value".

(** A request for a method the server does not have. *)
Definition sample_ping_request : JSONRPCRequest.t :=
  {| JSONRPCRequest.JSONRPC := "2.0";
     JSONRPCRequest.ID := String_ "p";
     JSONRPCRequest.Method := "ping";
     JSONRPCRequest.Params := "" |}.

(** A [tools/call] request whose parameters do not decode. *)
Definition sample_bad_call_request : JSONRPCRequest.t :=
  {| JSONRPCRequest.JSONRPC := "2.0";
     JSONRPCRequest.ID := String_ "b";
     JSONRPCRequest.Method := "tools/call";
     JSONRPCRequest.Params := "[]" |}.

(** The Result of [writeFiles] in [/tmp/empty], its JSON text as
    [sample_Marshal_Result] writes it, and the response to
    [sample_call_request] that carries it. *)
Definition sample_result : Result :=
  {| Directory := "/tmp/empty";
     FilesCreated := ["/tmp/empty/LICENSE"; "/tmp/empty/CONTRIBUTING.md"] |}.

Definition sample_result_text : string :=
  "{" +:+ quoted "directory" +:+ ":" +:+ quoted "/tmp/empty" +:+ ","
      +:+ quoted "files_created" +:+ ":["
      +:+ quoted "/tmp/empty/LICENSE" +:+ ","
      +:+ quoted "/tmp/empty/CONTRIBUTING.md" +:+ "]}".

Definition sample_call_response : JSONRPCResponse.t :=
  {| JSONRPCResponse.JSONRPC := "2.0";
     JSONRPCResponse.ID := String_ "a";
     JSONRPCResponse.Result :=
       Some (OfToolCallResult
               {| ToolCallResult.Content :=
                    [ {| ContentItem.Type_ := "text";
                         ContentItem.Text := sample_result_text |} ] |});
     JSONRPCResponse.Error := None |}.

(** Case analysis on [H : ef ∈ [e1; ...; en]]. *)
Ltac each_entry H :=
  repeat (apply elem_of_cons in H as [->|H]); [..|by apply elem_of_nil in H].

(** * Properties *)

(** ** Strings and [filepath.Join] *)

Lemma append_cons (x : ascii) (a b : string) :
  String x a +:+ b = String x (a +:+ b).
Proof. reflexivity. Qed.

Lemma append_nil_l (b : string) : "" +:+ b = b.
Proof. reflexivity. Qed.

Lemma append_assoc (a b c : string) : (a +:+ b) +:+ c = a +:+ (b +:+ c).
Proof.
  induction a as [|x a IH]; [done |]. by rewrite !append_cons, IH.
Qed.

Lemma append_nonempty_r (a b : string) : b ≠ "" → a +:+ b ≠ "".
Proof. destruct a; [done | rewrite append_cons; discriminate]. Qed.

Lemma string_last_append (a b : string) :
  b ≠ "" → string_last (a +:+ b) = string_last b.
Proof.
  intros Hb. induction a as [|x a IH]; [done |].
  rewrite append_cons, <- IH. cbn [string_last].
  destruct (a +:+ b) eqn:E; [|done].
  by apply append_nonempty_r in E.
Qed.

Module filepath_facts.
Import filepath.

Example Clean_examples :
  Clean "/tmp//empty/./x/../" = "/tmp/empty"
  ∧ Clean "../a/../.." = "../.."
  ∧ Clean "/../a" = "/a"
  ∧ Clean "a/b/../../.." = ".."
  ∧ Clean "" = "."
  ∧ Clean "/" = "/".
Proof. repeat split; reflexivity. Qed.

Example Join_examples :
  Join "/tmp/empty" "LICENSE" = "/tmp/empty/LICENSE"
  ∧ Join "/tmp/empty/" "CONTRIBUTING.md" = "/tmp/empty/CONTRIBUTING.md"
  ∧ Join "." "LICENSE" = "LICENSE"
  ∧ Join "" "LICENSE" = "LICENSE"
  ∧ Join "/" "LICENSE" = "/LICENSE"
  ∧ Join "a/../.." "LICENSE" = "../LICENSE".
Proof. repeat split; reflexivity. Qed.

Example Dir_examples :
  Dir "/tmp/empty/LICENSE" = "/tmp/empty"
  ∧ Dir "LICENSE" = "."
  ∧ Dir "/tmp" = "/"
  ∧ Dir "/" = "/".
Proof. repeat split; reflexivity. Qed.

Lemma split_nonempty s : split s ≠ [].
Proof.
  destruct s as [|c s]; simpl; [done |].
  case_decide; [done |]. by destruct (split s).
Qed.

Lemma split_append_sep a b :
  split (a +:+ String Separator b) = split a ++ split b.
Proof.
  induction a as [|c a IH].
  - rewrite append_nil_l. cbn [split]. by rewrite decide_True.
  - rewrite append_cons. cbn [split]. case_decide; rewrite IH; [done |].
    pose proof (split_nonempty a). by destruct (split a).
Qed.

Lemma join_sep_cons e rest :
  rest ≠ [] → join_sep (e :: rest) = e +:+ "/" +:+ join_sep rest.
Proof. by destruct rest. Qed.

Lemma join_sep_snoc elems name : ∃ pre, join_sep (elems ++ [name]) = pre +:+ name.
Proof.
  induction elems as [|e elems [pre IH]]; [by exists "" |].
  exists (e +:+ "/" +:+ pre).
  change ((e :: elems) ++ [name]) with (e :: (elems ++ [name])).
  rewrite join_sep_cons by (by destruct elems).
  rewrite IH. by rewrite !append_assoc.
Qed.

Lemma clean_step_plain rooted stack name :
  plain name → clean_step rooted stack name = name :: stack.
Proof.
  intros (_ & ? & ? & ?). unfold clean_step.
  rewrite decide_False by (intros [?|?]; done). by rewrite decide_False.
Qed.

Lemma Clean_snoc_plain rooted elems name :
  plain name →
  ∃ pre, render rooted (rev (fold_left (clean_step rooted) (elems ++ [name]) []))
         = pre +:+ name.
Proof.
  intros Hp. rewrite fold_left_app. cbn [fold_left].
  rewrite clean_step_plain by done. cbn [rev].
  set (kept := rev _). clearbody kept.
  destruct (join_sep_snoc kept name) as [pre Hpre].
  destruct rooted; cbn [render].
  - exists ("/" +:+ pre). rewrite Hpre. by rewrite append_assoc.
  - exists pre. rewrite <- Hpre. by destruct kept.
Qed.

Lemma Join_plain dir name : plain name → ∃ pre, Join dir name = pre +:+ name.
Proof.
  intros Hp. pose proof Hp as (Hs & Hne & _). unfold Join.
  destruct (decide (dir = "")) as [->|Hdir].
  - rewrite decide_False by done. unfold Clean. rewrite Hs.
    apply (Clean_snoc_plain _ [] name Hp).
  - unfold Clean.
    change (dir +:+ "/" +:+ name) with (dir +:+ String Separator name).
    rewrite split_append_sep, Hs. by apply Clean_snoc_plain.
Qed.

Lemma Join_plain_nonempty dir name : plain name → Join dir name ≠ "".
Proof.
  intros Hp. destruct (Join_plain dir name Hp) as [pre ->].
  apply append_nonempty_r, Hp.
Qed.

Lemma plain_LICENSE : plain "LICENSE".
Proof. repeat split; done. Qed.

Lemma plain_CONTRIBUTING : plain "CONTRIBUTING.md".
Proof. repeat split; done. Qed.

Lemma Join_LICENSE_CONTRIBUTING dir :
  Join dir "LICENSE" ≠ Join dir "CONTRIBUTING.md".
Proof.
  destruct (Join_plain dir _ plain_LICENSE) as [pre1 ->].
  destruct (Join_plain dir _ plain_CONTRIBUTING) as [pre2 ->].
  intros E. apply (f_equal string_last) in E.
  rewrite !string_last_append in E by done. discriminate.
Qed.

End filepath_facts.

(** ** The file tree *)

Module os_facts.
Import os.

Lemma walk_eq fuel (t : tree) name :
  walk fuel t name =
  match traverse t name with
  | Some e => inl e
  | None =>
      match t !! name with
      | Some (Symlink target) =>
          match fuel with
          | O => inl ELOOP
          | S fuel' => walk fuel' t (follow name target)
          end
      | found => inr (name, found)
      end
  end.
Proof. by destruct fuel. Qed.

(** Resolution ends at a name that holds no symbolic link, and reports
    what the tree holds there. *)
Lemma walk_found fuel (t : tree) name final found :
  walk fuel t name = inr (final, found) →
  found = t !! final ∧ ∀ target, found ≠ Some (Symlink target).
Proof.
  revert name. induction fuel as [|fuel IH]; intros name; rewrite walk_eq;
    destruct (traverse t name); try discriminate;
    destruct (t !! name) as [[| |target]|] eqn:E; try discriminate;
    try (intros [= <- <-]; by rewrite E).
  apply IH.
Qed.

Lemma traverse_insert (t : tree) final x name :
  t !! final = None →
  traverse t name = None → traverse (<[final := x]> t) name = None.
Proof.
  intros Hfinal. unfold traverse. case_decide; [done |].
  destruct (t !! filepath.Dir name) as [nd|] eqn:E; [|done].
  rewrite lookup_insert_ne by congruence. by rewrite E.
Qed.

Lemma may_create_insert (t : tree) final x name :
  t !! final = None →
  may_create t name = None → may_create (<[final := x]> t) name = None.
Proof.
  intros Hfinal. unfold may_create.
  destruct (t !! filepath.Dir name) as [nd|] eqn:E; [|done].
  rewrite lookup_insert_ne by congruence. by rewrite E.
Qed.

(** Creating a regular file at a free name changes no resolution: every
    name leads where it led, and finds there what the new tree holds. *)
Lemma walk_insert fuel (t : tree) final perm data name dest found :
  t !! final = None →
  walk fuel t name = inr (dest, found) →
  walk fuel (<[final := Regular perm data]> t) name
  = inr (dest, <[final := Regular perm data]> t !! dest).
Proof.
  intros Hfinal. revert name.
  induction fuel as [|fuel IH]; intros name; rewrite !walk_eq;
    destruct (traverse t name) eqn:Ht; try discriminate;
    rewrite (traverse_insert _ _ _ _ Hfinal Ht);
    (destruct (decide (name = final)) as [->|Hne];
     [ rewrite Hfinal; intros [= <- <-]; by rewrite !lookup_insert_eq
     | rewrite lookup_insert_ne by done ]);
    destruct (t !! name) as [[| |target]|] eqn:E; try discriminate;
    try (intros [= <- <-]; by rewrite lookup_insert_ne, E).
  apply IH.
Qed.

Lemma errno_of_walk_insert (t : tree) final perm data name dest found :
  t !! final = None →
  errno_of_walk t name = inr (dest, found) →
  errno_of_walk (<[final := Regular perm data]> t) name
  = inr (dest, <[final := Regular perm data]> t !! dest).
Proof.
  unfold errno_of_walk. case_decide; [done |]. apply walk_insert.
Qed.

Lemma errno_of_walk_found (t : tree) name final found :
  errno_of_walk t name = inr (final, found) →
  found = t !! final ∧ ∀ target, found ≠ Some (Symlink target).
Proof. unfold errno_of_walk. case_decide; [done |]. apply walk_found. Qed.

(** [os.Stat] keeps succeeding, with the same answer. *)
Lemma Stat_insert (t : tree) final perm data name info :
  t !! final = None →
  Stat t name = inr info →
  Stat (<[final := Regular perm data]> t) name = inr info.
Proof.
  intros Hfinal. unfold Stat.
  destruct (errno_of_walk t name) as [e|[dest found]] eqn:E; [done |].
  rewrite (errno_of_walk_insert _ _ perm data _ _ _ Hfinal E).
  destruct (errno_of_walk_found _ _ _ _ E) as [-> _].
  destruct (t !! dest) as [nd|] eqn:Ed; [|done].
  rewrite lookup_insert_ne by congruence. by rewrite Ed.
Qed.

(** A name with nothing behind it: [os.Stat] fails. *)
Lemma Stat_absent (t : tree) name :
  t !! name = None → ∃ err, Stat t name = inl err.
Proof.
  intros Hname. unfold Stat, errno_of_walk. case_decide; [by eexists |].
  rewrite walk_eq, Hname. destruct (traverse t name); by eexists.
Qed.

Lemma WriteFile_creatable (t : tree) name data perm :
  creatable t name →
  WriteFile t name data perm = (<[name := Regular perm data]> t, None).
Proof.
  intros (Hne & Hname & Ht & Hc). unfold WriteFile, errno_of_walk.
  rewrite decide_False by done. rewrite walk_eq, Ht, Hname. by rewrite Hc.
Qed.

Lemma creatable_insert (t : tree) final x name :
  name ≠ final → t !! final = None →
  creatable t name → creatable (<[final := x]> t) name.
Proof.
  intros Hne Hfinal (? & Hname & Ht & Hc). repeat split; [done | | |].
  - by rewrite lookup_insert_ne.
  - by apply traverse_insert.
  - by apply may_create_insert.
Qed.

(** The one way [os.WriteFile] succeeds where [os.Stat] failed: the name
    leads to a free name, and the file is created there. *)
Lemma WriteFile_after_failed_Stat (t t' : tree) name data perm err :
  Stat t name = inl err →
  WriteFile t name data perm = (t', None) →
  ∃ final, errno_of_walk t name = inr (final, None) ∧ t !! final = None
           ∧ t' = <[final := Regular perm data]> t.
Proof.
  unfold Stat, WriteFile.
  destruct (errno_of_walk t name) as [e|[final [[| |]|]]] eqn:E; try done.
  destruct (errno_of_walk_found _ _ _ _ E) as [Hfinal _].
  destruct (may_create t final); [done |].
  intros _ [= <-]. by exists final.
Qed.

(** [os.WriteFile] returns the tree as it was when it fails. *)
Lemma WriteFile_failed (t t' : tree) name data perm err :
  WriteFile t name data perm = (t', Some err) → t' = t.
Proof.
  unfold WriteFile.
  destruct (errno_of_walk t name) as [e|[final [[| |]|]]]; try by intros [= <-].
  destruct (may_create t final); by intros [= <-].
Qed.

(** After [os.WriteFile] created the file, [os.Stat] of the name succeeds. *)
Lemma Stat_after_create (t : tree) name final perm data :
  errno_of_walk t name = inr (final, None) → t !! final = None →
  Stat (<[final := Regular perm data]> t) name = inr {| IsDir := false |}.
Proof.
  intros E Hfinal. unfold Stat.
  rewrite (errno_of_walk_insert _ _ perm data _ _ _ Hfinal E).
  by rewrite lookup_insert_eq.
Qed.

End os_facts.

Example sample_line_text :
  String.length sample_line = 46%nat
  ∧ sample_Unmarshal_Request sample_line = Some sample_request
  ∧ sample_Unmarshal_Request sample_call_line = Some sample_call_request
  ∧ sample_Unmarshal_Request "{oops" = None.
Proof. by vm_compute. Qed.

(** ** [writeFiles] *)

Lemma writeFiles_range_cons directory ef rest created w :
  writeFiles_range directory (ef :: rest) created w =
  let p := dest directory ef in
  let w0 := with_call (os.SysStat p) w in
  match os.Stat (files w) p with
  | inr _ => (inl (AlreadyExists p), w0)
  | inl _ =>
      let wrote := os.WriteFile (files w) p (Content ef) perm_0644 in
      let w1 :=
        with_files wrote.1
          (with_call (os.SysWriteFile p (Content ef) perm_0644) w0) in
      match wrote.2 with
      | Some err => (inl (Writing (DestName ef) err), w1)
      | None => writeFiles_range directory rest (created ++ [p]) w1
      end
  end.
Proof.
  cbn [writeFiles_range]. unfold mbind, M_bind, os_Stat, os_WriteFile, dest.
  destruct (os.Stat _ _); [|done]. cbn [files with_call].
  by destruct (os.WriteFile _ _ _ _) as [t [err|]].
Qed.

(** The loop writes to the file tree and to the call log only. *)
Lemma writeFiles_range_streams directory efs created w :
  stdout (writeFiles_range directory efs created w).2 = stdout w
  ∧ stderr (writeFiles_range directory efs created w).2 = stderr w.
Proof.
  revert created w. induction efs as [|ef rest IH]; intros created w; [done |].
  rewrite writeFiles_range_cons. cbn zeta.
  destruct (os.Stat _ _); [|done].
  destruct (os.WriteFile _ _ _ _).2; [done |].
  destruct (IH (created ++ [dest directory ef])
              (with_files (os.WriteFile (files w) (dest directory ef)
                             (Content ef) perm_0644).1
                 (with_call (os.SysWriteFile (dest directory ef) (Content ef)
                               perm_0644)
                    (with_call (os.SysStat (dest directory ef)) w))))
    as [-> ->].
  done.
Qed.

(** Entries that are free and can be created are written one after the
    other, and the loop goes on with the entries after them. *)
Lemma writeFiles_range_creatable directory pre rest created w :
  NoDup (dest directory <$> pre) →
  (∀ ef, ef ∈ pre → os.creatable (files w) (dest directory ef)) →
  ∃ w1,
    writeFiles_range directory (pre ++ rest) created w
    = writeFiles_range directory rest (created ++ (dest directory <$> pre)) w1
    ∧ (∀ ef, ef ∈ pre →
         files w1 !! dest directory ef
         = Some (os.Regular perm_0644 (Content ef)))
    ∧ (∀ name, name ∉ (dest directory <$> pre) →
         files w1 !! name = files w !! name)
    ∧ (∀ name info, os.Stat (files w) name = inr info →
         os.Stat (files w1) name = inr info).
Proof.
  revert created w. induction pre as [|ef pre IH]; intros created w Hnd Hpre.
  { exists w. rewrite app_nil_r. repeat split; [|done..].
    intros ef Hef. by apply elem_of_nil in Hef. }
  rewrite fmap_cons in Hnd. apply NoDup_cons in Hnd as [Hfresh Hnd].
  pose proof (Hpre ef (list_elem_of_here _ _)) as Hef.
  pose proof Hef as (_ & Hfree & _).
  destruct (os_facts.Stat_absent _ _ Hfree) as [err Hstat].
  cbn [app]. rewrite writeFiles_range_cons. cbn zeta.
  rewrite Hstat, (os_facts.WriteFile_creatable _ _ _ _ Hef). cbn [fst snd].
  set (w0 := with_files _ _).
  destruct (IH (created ++ [dest directory ef]) w0 Hnd) as (w1 & Hrun & Hnew & Hold & Hkeep).
  { intros ef' Hef'. apply os_facts.creatable_insert; [|done|].
    - intros E. apply Hfresh. rewrite <- E. by apply list_elem_of_fmap_2.
    - apply Hpre. by apply list_elem_of_further. }
  exists w1. rewrite Hrun, <- app_assoc. split; [done |]. repeat split.
  - intros ef' [->|Hef']%elem_of_cons; [|by apply Hnew].
    rewrite Hold by done. apply lookup_insert_eq.
  - intros name [Hne Hname]%not_elem_of_cons.
    rewrite Hold by done. by apply lookup_insert_ne.
  - intros name info Hname. apply Hkeep. by apply os_facts.Stat_insert.
Qed.

(** When the loop fails it has written the entries before the one it
    failed at, and only them. *)
Lemma writeFiles_range_failed directory efs created w err :
  (writeFiles_range directory efs created w).1 = inl err →
  ∃ n ef,
    efs !! n = Some ef
    ∧ files (writeFiles_range directory efs created w).2
      = materialized directory (take n efs) (files w)
    ∧ (err = AlreadyExists (dest directory ef)
       ∨ ∃ cause, err = Writing (DestName ef) cause).
Proof.
  revert created w. induction efs as [|ef rest IH]; intros created w; [done |].
  rewrite writeFiles_range_cons. cbn zeta.
  destruct (os.Stat _ _) as [e|info].
  2: { intros [= <-]. exists 0%nat, ef. eauto. }
  destruct (os.WriteFile _ _ _ _) as [t [cause|]] eqn:Ew; cbn [fst snd].
  { intros [= <-]. exists 0%nat, ef. apply os_facts.WriteFile_failed in Ew.
    subst t. eauto. }
  intros (n & ef' & Hn & Hfiles & Herr)%IH.
  exists (S n), ef'. split; [done |]. split; [|done].
  rewrite Hfiles. cbn [take materialized foldl files with_files].
  unfold write_entry at 2. by rewrite Ew.
Qed.

(** What [os.Stat] finds keeps being found while the loop runs. *)
Lemma writeFiles_range_keeps_Stat directory efs created w name info :
  os.Stat (files w) name = inr info →
  os.Stat (files (writeFiles_range directory efs created w).2) name = inr info.
Proof.
  revert created w. induction efs as [|ef rest IH]; intros created w Hname;
    [done |].
  rewrite writeFiles_range_cons. cbn zeta.
  destruct (os.Stat _ (dest _ _)) as [e|?] eqn:Es; [|done].
  destruct (os.WriteFile _ _ _ _) as [t [cause|]] eqn:Ew; cbn [fst snd].
  { apply os_facts.WriteFile_failed in Ew. by subst t. }
  apply IH. cbn [files with_files].
  destruct (os_facts.WriteFile_after_failed_Stat _ _ _ _ _ _ Es Ew)
    as (final & _ & Hfree & ->).
  by apply os_facts.Stat_insert.
Qed.

(** The calls already made stay at the head of the log. *)
Lemma writeFiles_range_calls directory efs created w :
  ∃ more, calls (writeFiles_range directory efs created w).2 = calls w ++ more.
Proof.
  revert created w. induction efs as [|ef rest IH]; intros created w.
  { exists []. by rewrite app_nil_r. }
  rewrite writeFiles_range_cons. cbn zeta.
  destruct (os.Stat _ _); [|by eexists].
  destruct (os.WriteFile _ _ _ _).2.
  { eexists. cbn [snd calls with_files with_call]. by rewrite <- app_assoc. }
  edestruct IH as [more ->]. eexists.
  cbn [snd calls with_files with_call]. by rewrite <- !app_assoc.
Qed.

(** A conflict leaves the destination path of the first entry visited
    in place: the loop found it there, or wrote it before going on. *)
Lemma writeFiles_range_conflict_head directory ef rest created w destPath :
  (writeFiles_range directory (ef :: rest) created w).1
  = inl (AlreadyExists destPath) →
  ∃ info,
    os.Stat (files (writeFiles_range directory (ef :: rest) created w).2)
      (dest directory ef) = inr info.
Proof.
  rewrite writeFiles_range_cons. cbn zeta.
  destruct (os.Stat (files w) (dest directory ef)) as [e|info] eqn:Es.
  2: { intros _. exists info. exact Es. }
  destruct (os.WriteFile _ _ _ _) as [t [cause|]] eqn:Ew; cbn [fst snd];
    [discriminate |].
  intros _. eexists. apply writeFiles_range_keeps_Stat. cbn [files with_files].
  destruct (os_facts.WriteFile_after_failed_Stat _ _ _ _ _ _ Es Ew)
    as (final & Hwalk & Hfree & ->).
  by apply os_facts.Stat_after_create.
Qed.

Lemma writeFiles_eq file1Content file2Content directory w :
  writeFiles file1Content file2Content directory w =
  let w0 := with_call (os.SysStat directory) w in
  match os.Stat (files w) directory with
  | inl err => (inl (CheckingDirectory err), w0)
  | inr info =>
      if os.IsDir info then
        let out :=
          writeFiles_range directory
            (embeddedFiles file1Content file2Content) [] w0 in
        match out.1 with
        | inl err => (inl err, out.2)
        | inr created =>
            (inr {| Directory := directory; FilesCreated := created |}, out.2)
        end
      else (inl (NotADirectory directory), w0)
  end.
Proof.
  unfold writeFiles, mbind, M_bind, os_Stat.
  destruct (os.Stat _ _) as [err|[[]]]; [done | | done].
  cbn [negb os.IsDir]. by destruct (writeFiles_range _ _ _ _) as [[err|created] w1].
Qed.

Section ProgramFacts.

Context (file1Content file2Content : list Byte.byte).
Context (json_Unmarshal_Request : string → option JSONRPCRequest.t).
Context (json_Unmarshal_Params : string → option ToolCallParams.t).
Context (json_Marshal_Result : Result → option string).

Local Abbreviation embeddedFiles := (embeddedFiles file1Content file2Content).
Local Abbreviation writeFiles := (writeFiles file1Content file2Content).

Lemma embeddedFiles_eq :
  embeddedFiles
  = [ {| Content := file1Content; DestName := "LICENSE" |};
      {| Content := file2Content; DestName := "CONTRIBUTING.md" |} ].
Proof. reflexivity. Qed.

Lemma embeddedFiles_NoDup directory : NoDup (dest directory <$> embeddedFiles).
Proof.
  pose proof (filepath_facts.Join_LICENSE_CONTRIBUTING directory).
  apply NoDup_cons. split; [|apply NoDup_singleton].
  intros E%list_elem_of_singleton. exact (H E).
Qed.

Lemma embeddedFiles_dest_nonempty directory ef :
  ef ∈ embeddedFiles → dest directory ef ≠ "".
Proof.
  intros [->|[->|[]%elem_of_nil]%elem_of_cons]%elem_of_cons;
    apply filepath_facts.Join_plain_nonempty.
  - apply filepath_facts.plain_LICENSE.
  - apply filepath_facts.plain_CONTRIBUTING.
Qed.

Lemma writeFiles_streams directory w :
  stdout (writeFiles directory w).2 = stdout w
  ∧ stderr (writeFiles directory w).2 = stderr w.
Proof.
  rewrite writeFiles_eq. cbn zeta.
  destruct (os.Stat _ _) as [err|[[]]]; [done | | done].
  cbn [os.IsDir].
  pose proof (writeFiles_range_streams directory embeddedFiles []
                (with_call (os.SysStat directory) w)) as [H1 H2].
  by destruct (writeFiles_range _ _ _ _).1.
Qed.


(** C2, as amended. For every target directory that exists and is a
    directory, and every Template Set entry on whose destination path
    [os.Stat] succeeds while the destination paths of the entries before it
    are free and can be created, [writeFiles] fails with the conflict error
    naming that path: the entries before it are written and stay, each with
    its content, nothing else in the tree changes (so no entry at or after
    the conflicting one is written), and nothing is rolled back. *)
Theorem writeFiles_conflict_at_first_found directory w pre ef post info :
  embeddedFiles = pre ++ ef :: post →
  os.Stat (files w) directory = inr {| os.IsDir := true |} →
  (∀ e, e ∈ pre →
     files w !! dest directory e = None
     ∧ os.permits_create (files w) (dest directory e)) →
  os.Stat (files w) (dest directory ef) = inr info →
  (writeFiles directory w).1 = inl (AlreadyExists (dest directory ef))
  ∧ (∀ e, e ∈ pre →
       files (writeFiles directory w).2 !! dest directory e
       = Some (os.Regular perm_0644 (Content e)))
  ∧ (∀ name, name ∉ (dest directory <$> pre) →
       files (writeFiles directory w).2 !! name = files w !! name).
Proof.
  intros Hsplit Hdir Hpre Hfound. rewrite writeFiles_eq, Hdir. cbn [os.IsDir].
  cbn zeta. rewrite Hsplit.
  destruct (writeFiles_range_creatable directory pre (ef :: post) []
              (with_call (os.SysStat directory) w))
    as (w1 & Hrun & Hnew & Hold & Hkeep).
  { pose proof (embeddedFiles_NoDup directory) as Hnd.
    rewrite Hsplit, fmap_app in Hnd. by apply NoDup_app in Hnd as [? _]. }
  { intros e He. destruct (Hpre e He) as [? ?]. split; [|done].
    apply embeddedFiles_dest_nonempty. rewrite Hsplit.
    apply elem_of_app. by left. }
  rewrite Hrun, writeFiles_range_cons. cbn zeta.
  rewrite (Hkeep _ _ Hfound). done.
Qed.


(** C7. For every target path on which [os.Stat] fails (the path does
    not exist, or cannot be reached) or finds something that is not a
    directory, [writeFiles] returns the directory error and makes no other
    system call than that [os.Stat]: no write is attempted and the tree is
    unchanged. *)
Theorem writeFiles_directory_error directory w :
  os.Stat (files w) directory ≠ inr {| os.IsDir := true |} →
  (writeFiles directory w).1
  = inl match os.Stat (files w) directory with
        | inl err => CheckingDirectory err
        | inr _ => NotADirectory directory
        end
  ∧ files (writeFiles directory w).2 = files w
  ∧ calls (writeFiles directory w).2 = calls w ++ [os.SysStat directory].
Proof.
  intros Hdir. rewrite writeFiles_eq. cbn zeta.
  by destruct (os.Stat _ _) as [e|[[]]].
Qed.

(** When [os.Stat] finds the first entry in a directory, [writeFiles]
    stops there and changes nothing. *)
Lemma writeFiles_first_entry_found directory w info :
  os.Stat (files w) directory = inr {| os.IsDir := true |} →
  os.Stat (files w) (filepath.Join directory "LICENSE") = inr info →
  (writeFiles directory w).1
  = inl (AlreadyExists (filepath.Join directory "LICENSE"))
  ∧ files (writeFiles directory w).2 = files w.
Proof.
  intros Hdir Hfirst. rewrite writeFiles_eq. cbn zeta. rewrite Hdir.
  cbn [os.IsDir]. rewrite embeddedFiles_eq, writeFiles_range_cons. cbn zeta.
  cbn [files with_call]. unfold dest. cbn [DestName]. by rewrite Hfirst.
Qed.

(** C8, as amended. When [writeFiles] fails with a conflict, a second
    call on the directory it left, with no change in between, fails with a
    conflict again and changes nothing; it never succeeds. The second
    conflict names the destination path of the first Template Set entry,
    [LICENSE]: the same path as the first call when that call stopped at
    the first entry, having changed nothing; otherwise the first call
    stopped at [CONTRIBUTING.md] after writing [LICENSE], and the second
    call names the file the first one wrote. *)
Theorem writeFiles_conflict_again directory w destPath :
  (writeFiles directory w).1 = inl (AlreadyExists destPath) →
  let w1 := (writeFiles directory w).2 in
  (writeFiles directory w1).1
  = inl (AlreadyExists (filepath.Join directory "LICENSE"))
  ∧ files (writeFiles directory w1).2 = files w1
  ∧ (destPath = filepath.Join directory "LICENSE" → files w1 = files w)
  ∧ (destPath ≠ filepath.Join directory "LICENSE" →
       destPath = filepath.Join directory "CONTRIBUTING.md").
Proof.
  cbn zeta. intros Hfailed.
  assert (os.Stat (files w) directory = inr {| os.IsDir := true |}
          ∧ (writeFiles_range directory embeddedFiles []
               (with_call (os.SysStat directory) w)).1
            = inl (AlreadyExists destPath)
          ∧ (writeFiles directory w).2
            = (writeFiles_range directory embeddedFiles []
                 (with_call (os.SysStat directory) w)).2)
    as (Hdir & Hrun & Hw1).
  { revert Hfailed. rewrite writeFiles_eq. cbn zeta.
    destruct (os.Stat (files w) directory) as [e|[[]]]; [done | | done].
    cbn [os.IsDir].
    destruct (writeFiles_range _ _ _ _).1 as [err|created]; cbn [fst snd];
      [|done].
    by intros [= ->]. }
  rewrite Hw1. clear Hfailed Hw1.
  set (w0 := with_call (os.SysStat directory) w) in *.
  pose proof (writeFiles_range_keeps_Stat directory embeddedFiles [] w0
                directory _ Hdir) as Hdir1.
  pose proof Hrun as Hhead. rewrite embeddedFiles_eq in Hhead.
  apply writeFiles_range_conflict_head in Hhead as [info Hhead].
  rewrite <- embeddedFiles_eq in Hhead.
  destruct (writeFiles_first_entry_found _ _ _ Hdir1 Hhead) as [-> ->].
  split; [done |]. split; [done |].
  destruct (writeFiles_range_failed _ _ _ _ _ Hrun)
    as (n & ef & Hn & -> & [[= ->]|[cause [=]]]).
  destruct n as [|[|n]]; [| |done]; injection Hn as <-.
  - by split.
  - split; [|done].
    intros E. symmetry in E.
    by apply filepath_facts.Join_LICENSE_CONTRIBUTING in E.
Qed.

(** After a failed [os.Stat] the loop calls [os.WriteFile] on the path. *)
Lemma writeFiles_range_write_attempted directory ef rest created w err :
  os.Stat (files w) (dest directory ef) = inl err →
  ∃ more,
    calls (writeFiles_range directory (ef :: rest) created w).2
    = calls w
      ++ [os.SysStat (dest directory ef);
          os.SysWriteFile (dest directory ef) (Content ef) perm_0644]
      ++ more.
Proof.
  intros Hstat. rewrite writeFiles_range_cons. cbn zeta. rewrite Hstat.
  destruct (os.WriteFile _ _ _ _).2.
  - exists []. cbn [snd calls with_files with_call]. by rewrite <- app_assoc.
  - edestruct writeFiles_range_calls as [more ->]. exists more.
    cbn [calls with_files with_call]. by rewrite <- !app_assoc.
Qed.

(** C10. In the loop of [writeFiles], the conflict branch of an entry is
    taken exactly when [os.Stat] of its destination path succeeds: the loop
    then returns the conflict error having made that one call. Whenever
    [os.Stat] returns an error, whatever the error, the next call is
    [os.WriteFile] on the same path with the entry's content. *)
Theorem conflict_iff_Stat_succeeds directory ef rest created w :
  let p := dest directory ef in
  let out := writeFiles_range directory (ef :: rest) created w in
  ((∃ info, os.Stat (files w) p = inr info)
   ↔ out = (inl (AlreadyExists p), with_call (os.SysStat p) w))
  ∧ ∀ err, os.Stat (files w) p = inl err →
      ∃ more,
        calls out.2
        = calls w
          ++ [os.SysStat p; os.SysWriteFile p (Content ef) perm_0644] ++ more.
Proof.
  cbn zeta. split; [|apply writeFiles_range_write_attempted]. split.
  - intros [info Hstat]. rewrite writeFiles_range_cons. cbn zeta.
    by rewrite Hstat.
  - intros Hout.
    destruct (os.Stat (files w) (dest directory ef)) as [err|info] eqn:Hstat;
      [|by exists info].
    destruct (writeFiles_range_write_attempted _ _ rest created _ _ Hstat)
      as [more Hmore].
    rewrite Hout in Hmore. apply (f_equal length) in Hmore.
    cbn [snd calls with_call] in Hmore. rewrite !length_app in Hmore.
    cbn [length] in Hmore. lia.
Qed.

(** ** The handlers and the transport loop *)

Local Abbreviation handleToolsCall :=
  (handleToolsCall file1Content file2Content json_Unmarshal_Params
     json_Marshal_Result).
Local Abbreviation handleRequest :=
  (handleRequest file1Content file2Content json_Unmarshal_Params
     json_Marshal_Result).
Local Abbreviation runMCPServer :=
  (runMCPServer file1Content file2Content json_Unmarshal_Request
     json_Unmarshal_Params json_Marshal_Result).

Lemma sendResponse_emits id result w : emits id w (sendResponse id result w).2.
Proof.
  eexists. split; [done |]. split; [done |]. left. by split; [eexists |].
Qed.

Lemma sendError_emits id code message w :
  emits id w (sendError id code message w).2.
Proof.
  eexists. split; [done |]. split; [done |]. right. by split; [|eexists].
Qed.

Lemma emits_after_writeFiles id directory w w' :
  emits id (writeFiles directory w).2 w' → emits id w w'.
Proof.
  intros (resp & Hout & Hid). exists resp. split; [|done].
  rewrite Hout. by destruct (writeFiles_streams directory w) as [-> _].
Qed.

Lemma handleToolsCall_emits req w :
  emits (JSONRPCRequest.ID req) w (handleToolsCall req w).2.
Proof.
  unfold handleToolsCall.
  destruct (json_Unmarshal_Params _) as [params|]; [|apply sendError_emits].
  destruct (negb _); [apply sendError_emits |].
  destruct (directory_argument params) as [directory ok].
  destruct (negb ok || _); [apply sendError_emits |].
  unfold mbind, M_bind.
  destruct (writeFiles directory w) as [[err|result] w'] eqn:Hrun;
    apply (emits_after_writeFiles _ directory); rewrite Hrun; cbn [snd].
  - apply sendError_emits.
  - destruct (json_Marshal_Result result);
      [apply sendResponse_emits | apply sendError_emits].
Qed.

Lemma handleRequest_emits req w :
  emits (JSONRPCRequest.ID req) w (handleRequest req w).2.
Proof.
  unfold handleRequest. repeat case_bool_decide.
  - apply sendResponse_emits.
  - apply sendResponse_emits.
  - apply handleToolsCall_emits.
  - apply sendError_emits.
Qed.

(** One turn of the loop on a line that is not empty. *)
Lemma runMCPServer_line line rest w :
  line ≠ "" →
  runMCPServer (Line line :: rest) w
  = runMCPServer rest
      match json_Unmarshal_Request line with
      | Some req => (handleRequest req w).2
      | None => with_line parse_error_response w
      end.
Proof.
  intros Hline.
  transitivity
    ((if bool_decide (line = "") then runMCPServer rest
      else match json_Unmarshal_Request line with
           | None => _ ← sendError Nil (-32700) "Parse error"; runMCPServer rest
           | Some req => _ ← handleRequest req; runMCPServer rest
           end) w); [reflexivity |].
  rewrite bool_decide_false by done.
  destruct (json_Unmarshal_Request line) as [req|]; [|reflexivity].
  unfold mbind, M_bind. by destruct (handleRequest req w) as [[] w'].
Qed.

Lemma runMCPServer_empty_line rest w :
  runMCPServer (Line "" :: rest) w = runMCPServer rest w.
Proof. reflexivity. Qed.


(** Lines followed by the end of the input are all received. *)
Lemma received_lines lines rest :
  received ((Line <$> lines) ++ LineChanClosed :: rest) = lines.
Proof. induction lines as [|line lines IH]; [done |]. cbn. by rewrite IH. Qed.

(** C5. Whatever events the loop receives, it writes exactly one response
    per non-empty line it takes from the line channel and none for an empty
    line, in the order of the lines: the Nth response answers the Nth
    non-empty line. *)
Theorem one_response_per_nonempty_line events w :
  ∃ resps,
    stdout (runMCPServer events w).2 = stdout w ++ resps
    ∧ length resps = length (filter (λ line, line ≠ "") (received events))
    ∧ Forall2 (answers json_Unmarshal_Request)
        (filter (λ line, line ≠ "") (received events)) resps.
Proof.
  revert w. induction events as [|[|err|line|] rest IH]; intros w;
    try (exists []; by rewrite app_nil_r).
  cbn [received]. destruct (decide (line = "")) as [->|Hline].
  { rewrite runMCPServer_empty_line, filter_cons_False by naive_solver.
    apply IH. }
  rewrite runMCPServer_line, filter_cons_True by done.
  assert (∃ resp,
    stdout match json_Unmarshal_Request line with
           | Some req => (handleRequest req w).2
           | None => with_line parse_error_response w
           end = stdout w ++ [resp]
    ∧ answers json_Unmarshal_Request line resp) as (resp & Hout & Hans).
  { unfold answers. destruct (json_Unmarshal_Request line) as [req|].
    - destruct (handleRequest_emits req w) as (resp & ? & ? & _). eauto.
    - by exists parse_error_response. }
  edestruct IH as (resps & -> & Hlen & Hall).
  exists (resp :: resps). rewrite Hout, <- app_assoc.
  split; [done |]. split; [by rewrite !length_cons, Hlen |].
  by constructor.
Qed.

(** C6. For every non-empty line that does not decode to a JSON-RPC
    request, the loop writes the error response with a null id and code
    -32700 and goes on with the events that follow; a line after it that
    decodes to a request is dispatched and answered with its id. *)
Theorem parse_error_then_next_line line rest w :
  line ≠ "" →
  json_Unmarshal_Request line = None →
  JSONRPCResponse.ID parse_error_response = Nil
  ∧ JSONRPCResponse.Error parse_error_response
    = Some {| Error.Code := -32700; Error.Message := "Parse error" |}
  ∧ runMCPServer (Line line :: rest) w
    = runMCPServer rest (with_line parse_error_response w)
  ∧ ∀ next req rest',
      rest = Line next :: rest' →
      next ≠ "" →
      json_Unmarshal_Request next = Some req →
      ∃ resp w2,
        runMCPServer (Line line :: rest) w = runMCPServer rest' w2
        ∧ stdout w2 = stdout w ++ [parse_error_response; resp]
        ∧ JSONRPCResponse.ID resp = JSONRPCRequest.ID req.
Proof.
  intros Hline Hreq. split; [done |]. split; [done |].
  rewrite runMCPServer_line, Hreq by done. split; [done |].
  intros next req rest' -> Hnext Hnextreq.
  rewrite runMCPServer_line, Hnextreq by done.
  destruct (handleRequest_emits req (with_line parse_error_response w))
    as (resp & Hout & Hid & _).
  exists resp, (handleRequest req (with_line parse_error_response w)).2.
  split; [done |]. split; [|done].
  rewrite Hout. cbn [stdout with_line]. by rewrite <- app_assoc.
Qed.

(** C9. Every response the server writes has exactly one of result and
    error: [sendResponse] writes a response with a result and no error,
    [sendError] one with an error and no result, and every line the loop
    writes to standard output is such a response. *)
Theorem responses_have_result_xor_error :
  (∀ id result w,
     ∃ resp,
       stdout (sendResponse id result w).2 = stdout w ++ [resp]
       ∧ JSONRPCResponse.Result resp = Some result
       ∧ JSONRPCResponse.Error resp = None)
  ∧ (∀ id code message w,
       ∃ resp,
         stdout (sendError id code message w).2 = stdout w ++ [resp]
         ∧ JSONRPCResponse.Result resp = None
         ∧ JSONRPCResponse.Error resp
           = Some {| Error.Code := code; Error.Message := message |})
  ∧ ∀ events w,
      ∃ resps,
        stdout (runMCPServer events w).2 = stdout w ++ resps
        ∧ Forall exactly_one resps.
Proof.
  split; [by eexists |]. split; [by eexists |].
  induction events as [|[|err|line|] rest IH]; intros w;
    try (exists []; by rewrite app_nil_r).
  destruct (decide (line = "")) as [->|Hline].
  { rewrite runMCPServer_empty_line. apply IH. }
  rewrite runMCPServer_line by done.
  assert (∃ resp,
    stdout match json_Unmarshal_Request line with
           | Some req => (handleRequest req w).2
           | None => with_line parse_error_response w
           end = stdout w ++ [resp]
    ∧ exactly_one resp) as (resp & Hout & Hone).
  { destruct (json_Unmarshal_Request line) as [req|].
    - destruct (handleRequest_emits req w) as (resp & ? & _ & ?). eauto.
    - exists parse_error_response. split; [done |]. right.
      by split; [|eexists]. }
  edestruct IH as (resps & -> & Hall).
  exists (resp :: resps). rewrite Hout, <- app_assoc.
  split; [done |]. by constructor.
Qed.

End ProgramFacts.

(** ** The theorems at sample inputs *)

Local Abbreviation LICENSE_entry :=
  {| Content := sample_file1; DestName := "LICENSE" |}.
Local Abbreviation CONTRIBUTING_entry :=
  {| Content := sample_file2; DestName := "CONTRIBUTING.md" |}.



(** C2 as stated fails: [/tmp/empty] holds an entry at the destination
    path of [LICENSE], a symbolic link to a missing file; [writeFiles]
    reports no conflict, creates the missing file and succeeds. *)
Lemma writeFiles_writes_through_dangling_link :
  os.Stat sample_tree_dangling "/tmp/empty" = inr {| os.IsDir := true |}
  ∧ sample_tree_dangling !! dest "/tmp/empty" LICENSE_entry
    = Some (os.Symlink "missing")
  ∧ (writeFiles sample_file1 sample_file2 "/tmp/empty"
       (world_of sample_tree_dangling)).1
    = inr {| Directory := "/tmp/empty";
             FilesCreated :=
               ["/tmp/empty/LICENSE"; "/tmp/empty/CONTRIBUTING.md"] |}
  ∧ files (writeFiles sample_file1 sample_file2 "/tmp/empty"
             (world_of sample_tree_dangling)).2 !! "/tmp/empty/missing"
    = Some (os.Regular perm_0644 sample_file1).
Proof. repeat split; by vm_compute. Qed.

Lemma writeFiles_conflict_at_first_found_witness :
  (writeFiles sample_file1 sample_file2 "/tmp/empty"
     (world_of sample_tree_contributing)).1
  = inl (AlreadyExists (dest "/tmp/empty" CONTRIBUTING_entry))
  ∧ (∀ e, e ∈ [LICENSE_entry] →
       files (writeFiles sample_file1 sample_file2 "/tmp/empty"
                (world_of sample_tree_contributing)).2
       !! dest "/tmp/empty" e
       = Some (os.Regular perm_0644 (Content e)))
  ∧ (∀ name, name ∉ (dest "/tmp/empty" <$> [LICENSE_entry]) →
       files (writeFiles sample_file1 sample_file2 "/tmp/empty"
                (world_of sample_tree_contributing)).2 !! name
       = files (world_of sample_tree_contributing) !! name).
Proof.
  apply (writeFiles_conflict_at_first_found sample_file1 sample_file2
           "/tmp/empty" (world_of sample_tree_contributing)
           [LICENSE_entry] CONTRIBUTING_entry [] {| os.IsDir := false |}).
  - reflexivity.
  - by vm_compute.
  - intros e He. each_entry He. split; [by vm_compute |].
    split; by vm_compute.
  - by vm_compute.
Defined.



Lemma writeFiles_directory_error_witness :
  (writeFiles sample_file1 sample_file2 "/tmp/nothing"
     (world_of (sample_tree true true))).1
  = inl match os.Stat (files (world_of (sample_tree true true)))
                "/tmp/nothing" with
        | inl err => CheckingDirectory err
        | inr _ => NotADirectory "/tmp/nothing"
        end
  ∧ files (writeFiles sample_file1 sample_file2 "/tmp/nothing"
             (world_of (sample_tree true true))).2
    = files (world_of (sample_tree true true))
  ∧ calls (writeFiles sample_file1 sample_file2 "/tmp/nothing"
             (world_of (sample_tree true true))).2
    = calls (world_of (sample_tree true true)) ++ [os.SysStat "/tmp/nothing"].
Proof.
  apply (writeFiles_directory_error sample_file1 sample_file2 "/tmp/nothing"
           (world_of (sample_tree true true))).
  by vm_compute.
Defined.

(** C8 as stated fails: on [/tmp/empty] holding [CONTRIBUTING.md] the
    first call reports a conflict at [CONTRIBUTING.md], the second one at
    [LICENSE], which the first call wrote. *)
Lemma writeFiles_second_conflict_names_another_path :
  (writeFiles sample_file1 sample_file2 "/tmp/empty"
     (world_of sample_tree_contributing)).1
  = inl (AlreadyExists "/tmp/empty/CONTRIBUTING.md")
  ∧ (writeFiles sample_file1 sample_file2 "/tmp/empty"
       (writeFiles sample_file1 sample_file2 "/tmp/empty"
          (world_of sample_tree_contributing)).2).1
    = inl (AlreadyExists "/tmp/empty/LICENSE").
Proof. split; by vm_compute. Qed.

Lemma writeFiles_conflict_again_witness :
  (writeFiles sample_file1 sample_file2 "/tmp/empty"
     (writeFiles sample_file1 sample_file2 "/tmp/empty"
        (world_of sample_tree_license)).2).1
  = inl (AlreadyExists (filepath.Join "/tmp/empty" "LICENSE"))
  ∧ files (writeFiles sample_file1 sample_file2 "/tmp/empty"
             (writeFiles sample_file1 sample_file2 "/tmp/empty"
                (world_of sample_tree_license)).2).2
    = files (writeFiles sample_file1 sample_file2 "/tmp/empty"
               (world_of sample_tree_license)).2
  ∧ ("/tmp/empty/LICENSE" = filepath.Join "/tmp/empty" "LICENSE" →
       files (writeFiles sample_file1 sample_file2 "/tmp/empty"
                (world_of sample_tree_license)).2
       = files (world_of sample_tree_license))
  ∧ ("/tmp/empty/LICENSE" ≠ filepath.Join "/tmp/empty" "LICENSE" →
       "/tmp/empty/LICENSE" = filepath.Join "/tmp/empty" "CONTRIBUTING.md").
Proof.
  apply (writeFiles_conflict_again sample_file1 sample_file2 "/tmp/empty"
           (world_of sample_tree_license) "/tmp/empty/LICENSE").
  by vm_compute.
Defined.

(** [os.Stat] failing on a path that holds an entry, or failing for lack
    of permission: in both cases [writeFiles] goes on to the write. *)
Example write_attempted_after_any_Stat_error :
  os.Stat sample_tree_dangling "/tmp/empty/LICENSE"
  = inl {| os.Op := "stat"; os.Path := "/tmp/empty/LICENSE";
           os.Err := os.ENOENT |}
  ∧ calls (writeFiles_range "/tmp/empty" [LICENSE_entry] []
             (world_of sample_tree_dangling)).2
    = [os.SysStat "/tmp/empty/LICENSE";
       os.SysWriteFile "/tmp/empty/LICENSE" sample_file1 perm_0644]
  ∧ os.Stat (sample_tree false true) "/tmp/empty/LICENSE"
    = inl {| os.Op := "stat"; os.Path := "/tmp/empty/LICENSE";
             os.Err := os.EACCES |}
  ∧ writeFiles_range "/tmp/empty" [LICENSE_entry] []
      (world_of (sample_tree false true))
    = (inl (Writing "LICENSE"
              {| os.Op := "open"; os.Path := "/tmp/empty/LICENSE";
                 os.Err := os.EACCES |}),
       {| files := sample_tree false true;
          calls := [os.SysStat "/tmp/empty/LICENSE";
                    os.SysWriteFile "/tmp/empty/LICENSE" sample_file1
                      perm_0644];
          stdout := []; stderr := [] |}).
Proof. repeat split; by vm_compute. Qed.

Local Abbreviation sample_server :=
  (runMCPServer sample_file1 sample_file2 sample_Unmarshal_Request
     sample_Unmarshal_Params sample_Marshal_Result).


Lemma parse_error_then_next_line_witness :
  JSONRPCResponse.ID parse_error_response = Nil
  ∧ JSONRPCResponse.Error parse_error_response
    = Some {| Error.Code := -32700; Error.Message := "Parse error" |}
  ∧ sample_server [Line "{oops"; Line sample_line]
      (world_of (sample_tree true true))
    = sample_server [Line sample_line]
        (with_line parse_error_response (world_of (sample_tree true true)))
  ∧ ∀ next req rest',
      [Line sample_line] = Line next :: rest' →
      next ≠ "" →
      sample_Unmarshal_Request next = Some req →
      ∃ resp w2,
        sample_server [Line "{oops"; Line sample_line]
          (world_of (sample_tree true true))
        = sample_server rest' w2
        ∧ stdout w2
          = stdout (world_of (sample_tree true true))
            ++ [parse_error_response; resp]
        ∧ JSONRPCResponse.ID resp = JSONRPCRequest.ID req.
Proof.
  apply (parse_error_then_next_line sample_file1 sample_file2
           sample_Unmarshal_Request sample_Unmarshal_Params
           sample_Marshal_Result "{oops" [Line sample_line]
           (world_of (sample_tree true true))).
  - by vm_compute.
  - by vm_compute.
Defined.

(** A run of the server: an empty line, a line that is not JSON, a
    [tools/list] request, then the end of the input. *)
Example sample_run :
  JSONRPCResponse.ID
  <$> stdout (sample_server
                [Line ""; Line "{oops"; Line sample_line; LineChanClosed;
                 Line sample_line]
                (world_of (sample_tree true true))).2
  = [Nil; Float64 {| negative := false; significand := 1; exponent := 0 |}].
Proof. by vm_compute. Qed.

(** The two scenarios of a [tools/call] request for [/tmp/empty]: on the
    empty directory the files are created and listed in the result; on the
    directory that holds [LICENSE] the response is the internal error
    naming the path, and nothing is created. *)
Example sample_tools_call :
  (sample_server [Line sample_call_line] (world_of (sample_tree true true))).2
  = {| files :=
         <["/tmp/empty/CONTRIBUTING.md" := os.Regular perm_0644 sample_file2]>
           (<["/tmp/empty/LICENSE" := os.Regular perm_0644 sample_file1]>
              (sample_tree true true));
       calls :=
         [os.SysStat "/tmp/empty";
          os.SysStat "/tmp/empty/LICENSE";
          os.SysWriteFile "/tmp/empty/LICENSE" sample_file1 perm_0644;
          os.SysStat "/tmp/empty/CONTRIBUTING.md";
          os.SysWriteFile "/tmp/empty/CONTRIBUTING.md" sample_file2 perm_0644];
       stdout :=
         [ {| JSONRPCResponse.JSONRPC := "2.0";
              JSONRPCResponse.ID := String_ "a";
              JSONRPCResponse.Result :=
                Some (OfToolCallResult
                  {| ToolCallResult.Content :=
                       [ {| ContentItem.Type_ := "text";
                            ContentItem.Text :=
                              "{" +:+ quoted "directory" +:+ ":"
                              +:+ quoted "/tmp/empty" +:+ ","
                              +:+ quoted "files_created" +:+ ":["
                              +:+ quoted "/tmp/empty/LICENSE" +:+ ","
                              +:+ quoted "/tmp/empty/CONTRIBUTING.md"
                              +:+ "]}" |} ] |});
              JSONRPCResponse.Error := None |} ];
       stderr := [] |}
  ∧ stdout (sample_server [Line sample_call_line]
              (world_of sample_tree_license)).2
    = [ {| JSONRPCResponse.JSONRPC := "2.0";
           JSONRPCResponse.ID := String_ "a";
           JSONRPCResponse.Result := None;
           JSONRPCResponse.Error :=
             Some {| Error.Code := -32603;
                     Error.Message :=
                       "Init failed: file already exists, refusing to overwrite: /tmp/empty/LICENSE" |} |} ]
  ∧ files (sample_server [Line sample_call_line]
             (world_of sample_tree_license)).2
    = sample_tree_license.
Proof. repeat split; by vm_compute. Qed.

(** * Further properties of main.go *)

(** ** Reading files back *)

Lemma file_content_insert (t : os.tree) final perm data name content :
  t !! final = None →
  file_content t name = Some content →
  file_content (<[final := os.Regular perm data]> t) name = Some content.
Proof.
  intros Hfree. unfold file_content.
  destruct (os.errno_of_walk t name) as [e|[dst found]] eqn:E; [done |].
  rewrite (os_facts.errno_of_walk_insert _ _ perm data _ _ _ Hfree E).
  destruct (os_facts.errno_of_walk_found _ _ _ _ E) as [-> _].
  destruct (t !! dst) as [nd|] eqn:Ed; [|done].
  rewrite lookup_insert_ne by congruence. by rewrite Ed.
Qed.

Lemma file_content_after_create (t : os.tree) name final perm data :
  os.errno_of_walk t name = inr (final, None) → t !! final = None →
  file_content (<[final := os.Regular perm data]> t) name = Some data.
Proof.
  intros E Hfree. unfold file_content.
  rewrite (os_facts.errno_of_walk_insert _ _ perm data _ _ _ Hfree E).
  by rewrite lookup_insert_eq.
Qed.

Lemma file_content_Stat (t : os.tree) name content :
  file_content t name = Some content →
  os.Stat t name = inr {| os.IsDir := false |}.
Proof.
  unfold file_content, os.Stat.
  by destruct (os.errno_of_walk t name) as [e|[dst [[| |]|]]].
Qed.

(** ** The loop of [writeFiles], entry by entry *)

(** What one turn of the loop does, by cases. *)
Lemma writeFiles_range_cases directory ef rest created w :
  let p := dest directory ef in
  let w0 := with_call (os.SysStat p) w in
  let w1 t := with_files t (with_call (os.SysWriteFile p (Content ef) perm_0644) w0) in
  (∃ info, os.Stat (files w) p = inr info
     ∧ writeFiles_range directory (ef :: rest) created w
       = (inl (AlreadyExists p), w0))
  ∨ (∃ err cause, os.Stat (files w) p = inl err
       ∧ writeFiles_range directory (ef :: rest) created w
         = (inl (Writing (DestName ef) cause), w1 (files w)))
  ∨ (∃ err final, os.Stat (files w) p = inl err
       ∧ os.errno_of_walk (files w) p = inr (final, None)
       ∧ files w !! final = None
       ∧ writeFiles_range directory (ef :: rest) created w
         = writeFiles_range directory rest (created ++ [p])
             (w1 (<[final := os.Regular perm_0644 (Content ef)]> (files w)))).
Proof.
  cbn zeta. rewrite writeFiles_range_cons. cbn zeta.
  destruct (os.Stat (files w) (dest directory ef)) as [err|info] eqn:Es;
    [|left; by exists info].
  right.
  destruct (os.WriteFile (files w) (dest directory ef) (Content ef) perm_0644)
    as [t [cause|]] eqn:Ew; cbn [fst snd].
  - left. apply os_facts.WriteFile_failed in Ew as ->. by exists err, cause.
  - right.
    destruct (os_facts.WriteFile_after_failed_Stat _ _ _ _ _ _ Es Ew)
      as (final & Hwalk & Hfree & ->).
    by exists err, final.
Qed.


(** What can be read keeps being readable while the loop runs. *)
Lemma writeFiles_range_keeps_content directory efs created w name content :
  file_content (files w) name = Some content →
  file_content (files (writeFiles_range directory efs created w).2) name
  = Some content.
Proof.
  revert created w. induction efs as [|ef rest IH]; intros created w Hname;
    [done |].
  destruct (writeFiles_range_cases directory ef rest created w)
    as [(info & _ & ->)|[(err & cause & _ & ->)|(err & final & _ & _ & Hfree & ->)]];
    [done | done |].
  apply IH. cbn [files with_files]. by apply file_content_insert.
Qed.

(** A loop that reaches its end has listed every destination path in
    order; none of them could be found by [os.Stat] before, and each of them
    now reads back the content of its entry. *)
Lemma writeFiles_range_success directory efs created w created' w' :
  writeFiles_range directory efs created w = (inr created', w') →
  created' = created ++ (dest directory <$> efs)
  ∧ ∀ ef, ef ∈ efs →
      (∃ err, os.Stat (files w) (dest directory ef) = inl err)
      ∧ file_content (files w') (dest directory ef) = Some (Content ef).
Proof.
  revert created w. induction efs as [|ef rest IH]; intros created w.
  { intros [= <- <-]. split; [by rewrite app_nil_r |].
    by intros ef Hef%elem_of_nil. }
  destruct (writeFiles_range_cases directory ef rest created w)
    as [(info & _ & ->)|[(err & cause & _ & ->)|(err & final & Hstat & Hwalk & Hfree & ->)]];
    [done | done |].
  set (w1 := with_files _ _). intros Hrun.
  destruct (IH _ _ Hrun) as [-> Hall].
  split; [by rewrite <- app_assoc |].
  intros ef' [->|Hin]%elem_of_cons.
  - split; [by exists err |].
    replace w' with (writeFiles_range directory rest
                       (created ++ [dest directory ef]) w1).2
      by by rewrite Hrun.
    apply writeFiles_range_keeps_content. cbn [w1 files with_files].
    by apply file_content_after_create.
  - destruct (Hall ef' Hin) as [[err' Herr] Hread]. split; [|done].
    destruct (os.Stat (files w) (dest directory ef')) as [e|info] eqn:E;
      [by exists e |].
    apply (os_facts.Stat_insert _ final perm_0644 (Content ef)) in E; [|done].
    cbn [w1 files with_files] in Herr. congruence.
Qed.


Section MoreFacts.

Context (file1Content file2Content : list Byte.byte).
Context (json_Unmarshal_Request : string → option JSONRPCRequest.t).
Context (json_Unmarshal_Params : string → option ToolCallParams.t).
Context (json_Marshal_Result : Result → option string).
Context (json_Marshal_Result_error : Result → string).

Local Abbreviation embeddedFiles := (embeddedFiles file1Content file2Content).
Local Abbreviation writeFiles := (writeFiles file1Content file2Content).
Local Abbreviation handleToolsCall :=
  (handleToolsCall file1Content file2Content json_Unmarshal_Params
     json_Marshal_Result).
Local Abbreviation handleRequest :=
  (handleRequest file1Content file2Content json_Unmarshal_Params
     json_Marshal_Result).
Local Abbreviation runMCPServer :=
  (runMCPServer file1Content file2Content json_Unmarshal_Request
     json_Unmarshal_Params json_Marshal_Result).
Local Abbreviation runCLI :=
  (runCLI file1Content file2Content json_Marshal_Result
     json_Marshal_Result_error).
Local Abbreviation main :=
  (main file1Content file2Content json_Unmarshal_Request
     json_Unmarshal_Params json_Marshal_Result json_Marshal_Result_error).

(** ** [writeFiles] *)

(** [writeFiles] stops at the directory check, or runs the loop. *)
Lemma writeFiles_run directory w :
  (os.Stat (files w) directory ≠ inr {| os.IsDir := true |}
   ∧ ∃ err,
       writeFiles directory w
       = (inl err, with_call (os.SysStat directory) w))
  ∨ (os.Stat (files w) directory = inr {| os.IsDir := true |}
     ∧ ∃ r w1,
         writeFiles_range directory embeddedFiles []
           (with_call (os.SysStat directory) w) = (r, w1)
         ∧ writeFiles directory w
           = (match r with
              | inl err => inl err
              | inr created =>
                  inr {| Directory := directory; FilesCreated := created |}
              end, w1)).
Proof.
  rewrite writeFiles_eq. cbn zeta.
  destruct (os.Stat (files w) directory) as [e|[[]]] eqn:E.
  - left. split; [done | by eexists].
  - right. split; [done |]. cbn [os.IsDir].
    destruct (writeFiles_range directory embeddedFiles []
                (with_call (os.SysStat directory) w)) as [r w1].
    exists r, w1. split; [done |]. by destruct r.
  - left. split; [done | by eexists].
Qed.


(** What a successful [writeFiles] has done. *)
Lemma writeFiles_succeeded directory w result :
  (writeFiles directory w).1 = inr result →
  result = {| Directory := directory;
              FilesCreated := dest directory <$> embeddedFiles |}
  ∧ os.Stat (files w) directory = inr {| os.IsDir := true |}
  ∧ ∀ ef, ef ∈ embeddedFiles →
      (∃ err, os.Stat (files w) (dest directory ef) = inl err)
      ∧ file_content (files (writeFiles directory w).2) (dest directory ef)
        = Some (Content ef).
Proof.
  destruct (writeFiles_run directory w)
    as [(_ & err & ->)|(Hdir & [err|created] & w1 & Hrun & ->)];
    cbn [fst snd]; [done | done |].
  intros [= <-].
  by destruct (writeFiles_range_success _ _ _ _ _ _ Hrun) as [-> Hall].
Qed.

(** X2. When [writeFiles] succeeds, the Result names the directory and
    lists the destination paths of the Template Set in order, without
    repetition; the directory was found by [os.Stat], none of the
    destination paths was, and each destination path now reads back the
    content of its entry. *)
Theorem writeFiles_success directory w result :
  (writeFiles directory w).1 = inr result →
  Directory result = directory
  ∧ FilesCreated result = dest directory <$> embeddedFiles
  ∧ NoDup (FilesCreated result)
  ∧ os.Stat (files w) directory = inr {| os.IsDir := true |}
  ∧ ∀ ef, ef ∈ embeddedFiles →
      (∃ err, os.Stat (files w) (dest directory ef) = inl err)
      ∧ file_content (files (writeFiles directory w).2) (dest directory ef)
        = Some (Content ef).
Proof.
  intros (-> & Hdir & Hall)%writeFiles_succeeded.
  split; [done |]. split; [done |].
  split; [apply embeddedFiles_NoDup | by split].
Qed.

(** What [os.Stat] finds is still found after [writeFiles]. *)
Lemma writeFiles_keeps_Stat directory w name info :
  os.Stat (files w) name = inr info →
  os.Stat (files (writeFiles directory w).2) name = inr info.
Proof.
  intros Hname.
  destruct (writeFiles_run directory w)
    as [(_ & err & ->)|(_ & r & w1 & Hrun & ->)]; cbn [snd files with_call];
    [done |].
  replace w1 with (writeFiles_range directory embeddedFiles []
                     (with_call (os.SysStat directory) w)).2
    by by rewrite Hrun.
  by apply writeFiles_range_keeps_Stat.
Qed.

(** X3. After [writeFiles] has succeeded, a second call on the same
    directory fails with the conflict error naming [LICENSE] and changes
    nothing: what was written is not written again. *)
Theorem writeFiles_again_after_success directory w result :
  (writeFiles directory w).1 = inr result →
  (writeFiles directory (writeFiles directory w).2).1
  = inl (AlreadyExists (filepath.Join directory "LICENSE"))
  ∧ files (writeFiles directory (writeFiles directory w).2).2
    = files (writeFiles directory w).2.
Proof.
  intros Hok.
  destruct (writeFiles_succeeded directory w result Hok)
    as (_ & Hdir & Hall).
  destruct (Hall {| Content := file1Content; DestName := "LICENSE" |})
    as [_ Hread]; [by left |].
  apply file_content_Stat in Hread.
  eapply writeFiles_first_entry_found; [|exact Hread].
  by apply writeFiles_keeps_Stat.
Qed.


(** ** The handlers *)

Lemma sendError_eq id code message w :
  sendError id code message w
  = (tt, with_line (error_response id code message) w).
Proof. reflexivity. Qed.

(** X5. Only [tools/call] has side effects: for a request of any other
    method, [handleRequest] appends one response with the request's id to
    standard output and changes nothing else (no system call is made, the
    file tree and standard error are as before), and the response is the
    same in every world. *)
Theorem handleRequest_pure_unless_tools_call req :
  JSONRPCRequest.Method req ≠ "tools/call" →
  ∃ resp,
    JSONRPCResponse.ID resp = JSONRPCRequest.ID req
    ∧ ∀ w, handleRequest req w = (tt, with_line resp w).
Proof.
  intros Hmethod. unfold handleRequest. repeat case_bool_decide;
    try done; (eexists; split; [|intros w; reflexivity]; reflexivity).
Qed.

(** X6. A request whose method is none of [initialize], [tools/list] and
    [tools/call] is answered with the error -32601, "Method not found",
    under the request's id, and nothing else happens. *)
Theorem handleRequest_method_not_found req w :
  JSONRPCRequest.Method req ≠ "initialize" →
  JSONRPCRequest.Method req ≠ "tools/list" →
  JSONRPCRequest.Method req ≠ "tools/call" →
  handleRequest req w
  = (tt, with_line
           (error_response (JSONRPCRequest.ID req) (-32601) "Method not found")
           w).
Proof.
  intros H1 H2 H3. unfold handleRequest.
  by rewrite !bool_decide_false by done.
Qed.

(** [handleToolsCall] rejects the parameters, or they name a directory. *)
Lemma handleToolsCall_cases req w :
  (∃ message,
     handleToolsCall req w
     = (tt, with_line
              (error_response (JSONRPCRequest.ID req) (-32602) message) w))
  ∨ (∃ params directory,
       json_Unmarshal_Params (JSONRPCRequest.Params req) = Some params
       ∧ names_directory params directory).
Proof.
  unfold handleToolsCall.
  destruct (json_Unmarshal_Params _) as [params|] eqn:Hparams;
    [|left; by eexists].
  destruct (decide (ToolCallParams.Name params = "init")) as [Hname|Hname].
  2: { rewrite bool_decide_false by done. left. by eexists. }
  rewrite bool_decide_true by done. cbn [negb]. unfold directory_argument.
  destruct (ToolCallParams.Arguments params !! "directory")
    as [[| | |directory| |]|] eqn:Harg; try (left; by eexists).
  destruct (decide (directory = "")) as [->|Hdir]; [left; by eexists |].
  right. by exists params, directory.
Qed.

(** X7. A [tools/call] whose parameters do not decode, name another tool
    than [init], or give no non-empty string as [directory] is answered
    with an error of code -32602 under the request's id; no system call is
    made and the file tree is not touched. *)
Theorem handleToolsCall_rejects_invalid_params req w :
  (∀ params directory,
     json_Unmarshal_Params (JSONRPCRequest.Params req) = Some params →
     ¬ names_directory params directory) →
  ∃ message,
    handleToolsCall req w
    = (tt, with_line
             (error_response (JSONRPCRequest.ID req) (-32602) message) w).
Proof.
  intros Hinvalid.
  destruct (handleToolsCall_cases req w)
    as [?|(params & directory & Hparams & Hvalid)]; [done |].
  by destruct (Hinvalid params directory).
Qed.

(** A valid [tools/call] runs [writeFiles] and sends one response. *)
Lemma handleToolsCall_valid req w params directory :
  json_Unmarshal_Params (JSONRPCRequest.Params req) = Some params →
  names_directory params directory →
  handleToolsCall req w
  = (tt, with_line
           match (writeFiles directory w).1 with
           | inl err =>
               error_response (JSONRPCRequest.ID req) (-32603)
                 ("Init failed: " +:+ error_Error err)
           | inr result =>
               match json_Marshal_Result result with
               | None =>
                   error_response (JSONRPCRequest.ID req) (-32603)
                     "Failed to marshal result"
               | Some jsonResult =>
                   {| JSONRPCResponse.JSONRPC := "2.0";
                      JSONRPCResponse.ID := JSONRPCRequest.ID req;
                      JSONRPCResponse.Result :=
                        Some (OfToolCallResult
                                {| ToolCallResult.Content :=
                                     [ {| ContentItem.Type_ := "text";
                                          ContentItem.Text := jsonResult |} ]
                                |});
                      JSONRPCResponse.Error := None |}
               end
           end
           (writeFiles directory w).2).
Proof.
  intros Hparams (Hname & Harg & Hdir). unfold handleToolsCall.
  rewrite Hparams, bool_decide_true by done. cbn [negb].
  unfold directory_argument. rewrite Harg.
  rewrite bool_decide_false by done. cbn [negb orb].
  unfold mbind, M_bind.
  destruct (writeFiles directory w) as [[err|result] w1]; [done |].
  cbn [fst snd]. by destruct (json_Marshal_Result result).
Qed.

(** X8. A [tools/call] is answered with a result only when the files are
    there: if the response to the request carries a result, the parameters
    decoded to the tool [init] and a directory, and every destination path
    in that directory reads back the content of its Template Set entry. *)
Theorem tools_call_result_means_files_written req w resp :
  JSONRPCRequest.Method req = "tools/call" →
  stdout (handleRequest req w).2 = stdout w ++ [resp] →
  is_Some (JSONRPCResponse.Result resp) →
  ∃ params directory,
    json_Unmarshal_Params (JSONRPCRequest.Params req) = Some params
    ∧ names_directory params directory
    ∧ ∀ ef, ef ∈ embeddedFiles →
        file_content (files (handleRequest req w).2) (dest directory ef)
        = Some (Content ef).
Proof.
  intros Hmethod. unfold handleRequest. rewrite Hmethod.
  rewrite !bool_decide_false by done. rewrite bool_decide_true by done.
  destruct (handleToolsCall_cases req w)
    as [[message ->]|(params & directory & Hparams & Hvalid)].
  { cbn [snd stdout with_line]. intros [_ <-]%app_inj_tail [? [=]]. }
  rewrite (handleToolsCall_valid req w params directory Hparams Hvalid).
  cbn [snd stdout files with_line].
  destruct (writeFiles_streams file1Content file2Content directory w)
    as [-> _].
  intros [_ <-]%app_inj_tail Hresult.
  destruct (writeFiles directory w).1 as [err|result] eqn:Hrun;
    [by destruct Hresult |].
  exists params, directory. split; [done |]. split; [done |].
  intros ef Hef.
  by destruct (writeFiles_succeeded directory w result Hrun)
    as (_ & _ & Hall); destruct (Hall ef Hef).
Qed.

(** ** The transport loop *)

(** X9. Cancellation, the end of the input and a scanner error end the
    loop: the events that follow one of them are not looked at, so no line
    received later is handled. *)
Theorem runMCPServer_stops pre stop rest w :
  (∀ line, stop ≠ Line line) →
  runMCPServer (pre ++ stop :: rest) w = runMCPServer (pre ++ [stop]) w.
Proof.
  intros Hstop. revert w.
  induction pre as [|[|err|line|] pre IH]; intros w; cbn [app]; try done.
  - destruct stop as [|err|line|]; try done. by destruct (Hstop line).
  - destruct (decide (line = "")) as [->|Hline].
    + rewrite !runMCPServer_empty_line. apply IH.
    + rewrite !runMCPServer_line by done. apply IH.
Qed.

(** X10. The loop handles lines one after the other: running it on some
    lines followed by more events is running it on the lines, then on the
    events that follow, in the world the lines left. *)
Theorem runMCPServer_lines_then lines rest w :
  runMCPServer ((Line <$> lines) ++ rest) w
  = runMCPServer rest (runMCPServer (Line <$> lines) w).2.
Proof.
  revert w. induction lines as [|line lines IH]; intros w; [done |].
  rewrite !fmap_cons. cbn [app].
  destruct (decide (line = "")) as [->|Hline].
  - rewrite !runMCPServer_empty_line. apply IH.
  - rewrite !runMCPServer_line by done. apply IH.
Qed.



(** ** The command line *)

Lemma runCLI_eq directory w :
  runCLI directory w
  = if bool_decide (directory = "") then
      (([], Some ExitError),
       (Fprintf_Stderr "Error: --directory is required in CLI mode" w).2)
    else
      match (writeFiles directory w).1 with
      | inl err =>
          (([], Some ExitError),
           (Fprintf_Stderr ("Error: " +:+ error_Error err)
              (writeFiles directory w).2).2)
      | inr result =>
          match json_Marshal_Result result with
          | None =>
              (([], Some ExitError),
               (Fprintf_Stderr ("Error marshaling result: "
                                +:+ json_Marshal_Result_error result)
                  (writeFiles directory w).2).2)
          | Some output => (([output], None), (writeFiles directory w).2)
          end
      end.
Proof.
  unfold runCLI. case_bool_decide; [done |]. unfold mbind, M_bind.
  destruct (writeFiles directory w) as [[err|result] w1]; [done |].
  cbn [fst snd]. by destruct (json_Marshal_Result result).
Qed.

(** X12. [runCLI] returns without calling [os.Exit] exactly when the
    directory flag is not empty, [writeFiles] succeeds and the Result has a
    JSON text; it then prints that text as its one line of standard output
    and nothing on standard error, in the world [writeFiles] left.
    Otherwise it exits with status 1, prints nothing on standard output and
    one line on standard error. With an empty directory flag it makes no
    system call. *)
Theorem runCLI_outcome directory w :
  let out := runCLI directory w in
  (out.1.2 = None
   ↔ directory ≠ ""
     ∧ ∃ result output,
         (writeFiles directory w).1 = inr result
         ∧ json_Marshal_Result result = Some output
         ∧ out = (([output], None), (writeFiles directory w).2))
  ∧ (out.1.2 ≠ None →
       out.1 = ([], Some ExitError)
       ∧ ∃ message, stderr out.2 = stderr w ++ [message])
  ∧ (directory = "" → files out.2 = files w ∧ calls out.2 = calls w).
Proof.
  cbn zeta. rewrite runCLI_eq.
  destruct (writeFiles_streams file1Content file2Content directory w)
    as [_ Herr].
  case_bool_decide as Hdir.
  { split; [|split].
    - split; [done | by intros [? _]].
    - intros _. split; [done | by eexists].
    - done. }
  destruct (writeFiles directory w).1 as [err|result] eqn:Hrun.
  { split; [|split].
    - split; [done | by intros (_ & ? & ? & [=] & _)].
    - intros _. split; [done |]. eexists. cbn. by rewrite Herr.
    - done. }
  destruct (json_Marshal_Result result) as [output|] eqn:Hjson.
  - split; [|split]; [|done..].
    split; [|done]. intros _. split; [done |]. by exists result, output.
  - split; [|split].
    + split; [done |]. intros (_ & result' & output & [= <-] & Hsome & _).
      congruence.
    + intros _. split; [done |]. eexists. cbn. by rewrite Herr.
    + done.
Qed.

(** X13. The command line and the server report the same thing for the
    same directory. Both leave the world [writeFiles] left, apart from
    their own output. When [writeFiles] fails, the command line prints
    "Error: " and the server answers -32603 with "Init failed: ", each
    followed by the message of that same error; when it succeeds, the
    command line prints the JSON text of the Result and the server sends
    this text as the text item of its result. *)
Theorem runCLI_agrees_with_tools_call req params directory w :
  json_Unmarshal_Params (JSONRPCRequest.Params req) = Some params →
  names_directory params directory →
  files (runCLI directory w).2 = files (handleToolsCall req w).2
  ∧ calls (runCLI directory w).2 = calls (handleToolsCall req w).2
  ∧ (∀ err,
       (writeFiles directory w).1 = inl err →
       (runCLI directory w).1 = ([], Some ExitError)
       ∧ stderr (runCLI directory w).2
         = stderr w ++ ["Error: " +:+ error_Error err]
       ∧ stdout (handleToolsCall req w).2
         = stdout w
           ++ [error_response (JSONRPCRequest.ID req) (-32603)
                 ("Init failed: " +:+ error_Error err)])
  ∧ (∀ result output,
       (writeFiles directory w).1 = inr result →
       json_Marshal_Result result = Some output →
       (runCLI directory w).1 = ([output], None)
       ∧ ∃ resp,
           stdout (handleToolsCall req w).2 = stdout w ++ [resp]
           ∧ JSONRPCResponse.Result resp
             = Some (OfToolCallResult
                       {| ToolCallResult.Content :=
                            [ {| ContentItem.Type_ := "text";
                                 ContentItem.Text := output |} ] |})).
Proof.
  intros Hparams Hvalid. pose proof Hvalid as (_ & _ & Hdir).
  rewrite (handleToolsCall_valid req w params directory Hparams Hvalid).
  rewrite runCLI_eq, bool_decide_false by done.
  destruct (writeFiles_streams file1Content file2Content directory w)
    as [Hout Herr].
  cbn [snd files calls stdout with_line]. rewrite Hout.
  destruct (writeFiles directory w).1 as [err|result].
  { split; [done |]. split; [done |]. split; [|by intros ? ? [=]].
    intros err' [= <-]. split; [done |]. split; [|done].
    cbn. by rewrite Herr. }
  destruct (json_Marshal_Result result) as [output|] eqn:Hjson;
    (split; [done |]; split; [done |]; split; [by intros ? [=] |]);
    intros result' output' [= <-] Hsome; [|congruence].
  assert (output' = output) as -> by congruence.
  split; [done |]. by eexists.
Qed.

(** X14. In server mode [main] ignores the directory flag, runs the loop
    and exits with status 0, whatever the loop received, a scanner error
    included. In CLI mode it reads no event and exits with status 1
    exactly when [runCLI] calls [os.Exit], and with status 0 otherwise. *)
Theorem main_exit_status cliMode directory events w :
  let out := main cliMode directory events w in
  (cliMode = false →
     out = (([], 0), (runMCPServer events w).2))
  ∧ (cliMode = true →
       out.2 = (runCLI directory w).2
       ∧ out.1.1 = (runCLI directory w).1.1
       ∧ (out.1.2 = 1 ↔ (runCLI directory w).1.2 ≠ None)
       ∧ (out.1.2 = 0 ↔ (runCLI directory w).1.2 = None)).
Proof.
  cbn zeta. unfold main, mbind, M_bind. destruct cliMode.
  - split; [done |]. intros _. rewrite runCLI_eq.
    case_bool_decide; [by repeat split |].
    destruct (writeFiles directory w).1 as [err|result]; [by repeat split |].
    by destruct (json_Marshal_Result result); repeat split.
  - split; [|done]. intros _.
    by destruct (runMCPServer events w) as [[] w1].
Qed.

End MoreFacts.

(** ** The further properties at sample inputs *)

Local Abbreviation sample_embeddedFiles :=
  (embeddedFiles sample_file1 sample_file2).
Local Abbreviation sample_writeFiles := (writeFiles sample_file1 sample_file2).
Local Abbreviation sample_handleToolsCall :=
  (handleToolsCall sample_file1 sample_file2 sample_Unmarshal_Params
     sample_Marshal_Result).
Local Abbreviation sample_handleRequest :=
  (handleRequest sample_file1 sample_file2 sample_Unmarshal_Params
     sample_Marshal_Result).
Local Abbreviation sample_runCLI :=
  (runCLI sample_file1 sample_file2 sample_Marshal_Result
     sample_Marshal_Result_error).
Local Abbreviation empty_world := (world_of (sample_tree true true)).

Lemma writeFiles_success_witness :
  Directory sample_result = "/tmp/empty"
  ∧ FilesCreated sample_result = dest "/tmp/empty" <$> sample_embeddedFiles
  ∧ NoDup (FilesCreated sample_result)
  ∧ os.Stat (files empty_world) "/tmp/empty" = inr {| os.IsDir := true |}
  ∧ ∀ ef, ef ∈ sample_embeddedFiles →
      (∃ err, os.Stat (files empty_world) (dest "/tmp/empty" ef) = inl err)
      ∧ file_content (files (sample_writeFiles "/tmp/empty" empty_world).2)
          (dest "/tmp/empty" ef)
        = Some (Content ef).
Proof.
  apply (writeFiles_success sample_file1 sample_file2 "/tmp/empty"
           empty_world sample_result).
  by vm_compute.
Defined.

Lemma writeFiles_again_after_success_witness :
  (sample_writeFiles "/tmp/empty"
     (sample_writeFiles "/tmp/empty" empty_world).2).1
  = inl (AlreadyExists (filepath.Join "/tmp/empty" "LICENSE"))
  ∧ files (sample_writeFiles "/tmp/empty"
             (sample_writeFiles "/tmp/empty" empty_world).2).2
    = files (sample_writeFiles "/tmp/empty" empty_world).2.
Proof.
  apply (writeFiles_again_after_success sample_file1 sample_file2
           "/tmp/empty" empty_world sample_result).
  by vm_compute.
Defined.

Lemma handleRequest_pure_unless_tools_call_witness :
  ∃ resp,
    JSONRPCResponse.ID resp = JSONRPCRequest.ID sample_request
    ∧ ∀ w, sample_handleRequest sample_request w = (tt, with_line resp w).
Proof.
  apply (handleRequest_pure_unless_tools_call sample_file1 sample_file2
           sample_Unmarshal_Params sample_Marshal_Result sample_request).
  by vm_compute.
Defined.

Lemma handleRequest_method_not_found_witness :
  sample_handleRequest sample_ping_request empty_world
  = (tt, with_line
           (error_response (JSONRPCRequest.ID sample_ping_request) (-32601)
              "Method not found")
           empty_world).
Proof.
  apply (handleRequest_method_not_found sample_file1 sample_file2
           sample_Unmarshal_Params sample_Marshal_Result sample_ping_request
           empty_world); by vm_compute.
Defined.

Lemma handleToolsCall_rejects_invalid_params_witness :
  ∃ message,
    sample_handleToolsCall sample_bad_call_request empty_world
    = (tt, with_line
             (error_response (JSONRPCRequest.ID sample_bad_call_request)
                (-32602) message)
             empty_world).
Proof.
  apply (handleToolsCall_rejects_invalid_params sample_file1 sample_file2
           sample_Unmarshal_Params sample_Marshal_Result
           sample_bad_call_request empty_world).
  intros params directory Hparams. vm_compute in Hparams. discriminate.
Defined.

Lemma tools_call_result_means_files_written_witness :
  ∃ params directory,
    sample_Unmarshal_Params (JSONRPCRequest.Params sample_call_request)
    = Some params
    ∧ names_directory params directory
    ∧ ∀ ef, ef ∈ sample_embeddedFiles →
        file_content
          (files (sample_handleRequest sample_call_request empty_world).2)
          (dest directory ef)
        = Some (Content ef).
Proof.
  apply (tools_call_result_means_files_written sample_file1 sample_file2
           sample_Unmarshal_Params sample_Marshal_Result sample_call_request
           empty_world sample_call_response).
  - reflexivity.
  - by vm_compute.
  - by eexists.
Defined.

Lemma runMCPServer_stops_witness :
  sample_server ([Line sample_line] ++ LineChanClosed :: [Line sample_call_line])
    empty_world
  = sample_server ([Line sample_line] ++ [LineChanClosed]) empty_world.
Proof.
  apply (runMCPServer_stops sample_file1 sample_file2 sample_Unmarshal_Request
           sample_Unmarshal_Params sample_Marshal_Result [Line sample_line]
           LineChanClosed [Line sample_call_line] empty_world).
  intros line. discriminate.
Defined.

Lemma runCLI_agrees_with_tools_call_witness :
  files (sample_runCLI "/tmp/empty" (world_of sample_tree_license)).2
  = files (sample_handleToolsCall sample_call_request
             (world_of sample_tree_license)).2
  ∧ calls (sample_runCLI "/tmp/empty" (world_of sample_tree_license)).2
    = calls (sample_handleToolsCall sample_call_request
               (world_of sample_tree_license)).2
  ∧ (∀ err,
       (sample_writeFiles "/tmp/empty" (world_of sample_tree_license)).1
       = inl err →
       (sample_runCLI "/tmp/empty" (world_of sample_tree_license)).1
       = ([], Some ExitError)
       ∧ stderr (sample_runCLI "/tmp/empty" (world_of sample_tree_license)).2
         = stderr (world_of sample_tree_license)
           ++ ["Error: " +:+ error_Error err]
       ∧ stdout (sample_handleToolsCall sample_call_request
                   (world_of sample_tree_license)).2
         = stdout (world_of sample_tree_license)
           ++ [error_response (JSONRPCRequest.ID sample_call_request)
                 (-32603) ("Init failed: " +:+ error_Error err)])
  ∧ (∀ result output,
       (sample_writeFiles "/tmp/empty" (world_of sample_tree_license)).1
       = inr result →
       sample_Marshal_Result result = Some output →
       (sample_runCLI "/tmp/empty" (world_of sample_tree_license)).1
       = ([output], None)
       ∧ ∃ resp,
           stdout (sample_handleToolsCall sample_call_request
                     (world_of sample_tree_license)).2
           = stdout (world_of sample_tree_license) ++ [resp]
           ∧ JSONRPCResponse.Result resp
             = Some (OfToolCallResult
                       {| ToolCallResult.Content :=
                            [ {| ContentItem.Type_ := "text";
                                 ContentItem.Text := output |} ] |})).
Proof.
  apply (runCLI_agrees_with_tools_call sample_file1 sample_file2
           sample_Unmarshal_Params sample_Marshal_Result
           sample_Marshal_Result_error sample_call_request sample_params
           "/tmp/empty" (world_of sample_tree_license)).
  - by vm_compute.
  - repeat split; by vm_compute.
Defined.

(** The command line on the empty directory, on the directory that holds
    [LICENSE], and without a directory. *)
Example sample_command_line :
  (sample_runCLI "/tmp/empty" empty_world).1 = ([sample_result_text], None)
  ∧ stderr (sample_runCLI "/tmp/empty" empty_world).2 = []
  ∧ sample_runCLI "/tmp/empty" (world_of sample_tree_license)
    = (([], Some ExitError),
       {| files := sample_tree_license;
          calls := [os.SysStat "/tmp/empty"; os.SysStat "/tmp/empty/LICENSE"];
          stdout := [];
          stderr :=
            ["Error: file already exists, refusing to overwrite: /tmp/empty/LICENSE"] |})
  ∧ sample_runCLI "" empty_world
    = (([], Some ExitError),
       {| files := sample_tree true true; calls := []; stdout := [];
          stderr := ["Error: --directory is required in CLI mode"] |}).
Proof. repeat split; by vm_compute. Qed.

(** A [tools/call] with parameters that lack the directory. *)
Example sample_missing_directory :
  handleToolsCall sample_file1 sample_file2
    (λ _, Some {| ToolCallParams.Name := "init";
                  ToolCallParams.Arguments := ∅ |})
    sample_Marshal_Result sample_bad_call_request empty_world
  = (tt, with_line
           (error_response (String_ "b") (-32602)
              "Missing or invalid 'directory' parameter")
           empty_world).
Proof. by vm_compute. Qed.
